(** * lxi-tools: command-line options and the screenshot decoder

    A shallow embedding of [src/options.c] (the option parser of the [lxi]
    tool) and of [src/rigol_1000z_screenshot.c] (the screenshot client with
    its TMC block header stripping), followed by the properties of both.

    Conventions.
    - A C [int] is a [Z]; where the C library truncates ([atoi]) the
      wrap-around is written out.
    - A [char] is an [ascii]; a [char] array is a [list ascii] indexed with
      stdpp's lookup and insert, and an access outside the array is a fault
      of the model ([None]), since C leaves it undefined.
    - A NUL-terminated C string is a [string]; so is the memory [atoi] reads
      behind a character that no terminator follows.
    - The process-wide [option] record and the state the C library keeps
      between two calls of [getopt_long] are passed explicitly. *)

From Stdlib Require Import ZArith Ascii String Lia.
From stdpp Require Import base tactics option list pretty.

Local Open Scope Z_scope.

(** ** The C library functions the two programs call *)

Module Libc.

Definition EXIT_SUCCESS : Z := 0.
Definition EXIT_FAILURE : Z := 1.

(** The code of a character, as the [int] a [char] promotes to. *)
Definition code (c : ascii) : Z := Z.of_N (N_of_ascii c).

Definition nul : ascii := ascii_of_N 0.
Definition newline : ascii := ascii_of_N 10.

(** [isspace] in the C locale: space, and the controls 9 to 13. *)
Definition isspace (c : ascii) : bool :=
  (code c =? 32) || ((9 <=? code c) && (code c <=? 13)).

(** [isdigit]. *)
Definition isdigit (c : ascii) : bool :=
  (48 <=? code c) && (code c <=? 57).

Definition digit_value (c : ascii) : Z := code c - 48.

(** Reduction of a [long] to an [int]: two's complement on 32 bits. *)
Definition wrap32 (z : Z) : Z := (z + 2 ^ 31) mod 2 ^ 32 - 2 ^ 31.

(** [strtol] saturates at the ends of the 64-bit [long]. *)
Definition clamp_long (z : Z) : Z := Z.max (- 2 ^ 63) (Z.min (2 ^ 63 - 1) z).

Fixpoint skip_spaces (s : string) : string :=
  match s with
  | String c s' => if isspace c then skip_spaces s' else s
  | EmptyString => s
  end.

(** The digits at the head of [s], accumulated in base ten from [acc]. *)
Fixpoint digits_from (acc : Z) (s : string) : Z :=
  match s with
  | String c s' =>
      if isdigit c then digits_from (10 * acc + digit_value c) s' else acc
  | EmptyString => acc
  end.

(** [atoi(s)], that is [(int) strtol(s, NULL, 10)]: leading white space,
    an optional sign, then the longest run of decimal digits; [0] when
    there is none. *)
Definition atoi (s : string) : Z :=
  match skip_spaces s with
  | String "-" s' => wrap32 (clamp_long (- digits_from 0 s'))
  | String "+" s' => wrap32 (clamp_long (digits_from 0 s'))
  | s' => wrap32 (clamp_long (digits_from 0 s'))
  end.

(** [strlen]. *)
Definition strlen (s : string) : Z := Z.of_nat (String.length s).

(** The characters [strncpy(dst, src, n)] stores at the start of [dst]:
    the first [n] characters of [src].  When [src] has fewer than [n]
    characters a terminator follows them and [dst] holds the string [src].
    When it has [n] or more, no terminator is stored: [n] characters fill
    the start of the array, and where the string read from [dst] ends
    depends on the size of the array and on what lies behind it. *)
Fixpoint strncpy (src : string) (n : nat) : string :=
  match n, src with
  | S n', String c src' => String c (strncpy src' n')
  | _, _ => EmptyString
  end.

(** [strcmp(a, b) == 0]. *)
Definition streq (a b : string) : bool := String.eqb a b.

End Libc.

(** ** src/rigol_1000z_screenshot.c *)

Module Screenshot.
Import Libc.

(** Everything outside the program that one run of [capture_screenshot]
    depends on.
    - The transport library (liblxi, not part of this repository): the
      values returned by [lxi_connect], [lxi_send] and [lxi_receive]
      ([LXI_ERROR] on failure), the contents of the array [response] after
      [lxi_receive], and what it stored in [length], if it stored anything.
    - The variable [length] is not initialised: [length_before] is whatever
      it holds when [lxi_receive] is called.
    - [atoi(&c)] is given the address of the lone character [c], which no
      terminator follows: [atoi] reads on into the memory behind [c].
      [after_c] is that memory, up to its first NUL byte; what it holds
      depends on how the compiler lays out the variables (with [length]
      right behind [c] it is the bytes of [length]).
    - [fopen_succeeds] tells for which paths [fopen(path, "w+")] returns a
      stream. *)
Record world := {
  connect_result : Z;
  send_result : Z;
  receive_result : Z;
  received : list ascii;
  length_before : Z;
  length_written : option Z;
  after_c : string;
  fopen_succeeds : string -> bool;
}.

(** The value with which liblxi reports a failure ([lxi.h]). *)
Definition LXI_ERROR : Z := -1.

(** The value of [length] after [lxi_receive]. *)
Definition length_read (w : world) : Z :=
  match length_written w with
  | Some len => len
  | None => length_before w
  end.

(** The state after the header and the terminator have been stripped:
    the array [response], the offset of [response_p] in it, and
    [length]. *)
Record stripped := {
  response : list ascii;
  response_p : Z;
  length : Z;
}.

(** Lines 62 to 71 of [capture_screenshot], [behind] being the memory
    that follows [c].  A write outside the array has no defined result. *)
Definition strip (behind : string) (response0 : list ascii) (length0 : Z)
  : option stripped :=
  match response0 !! 1%nat with                      (* c = response[1]; *)
  | None => None
  | Some c =>
      let n := atoi (String c behind) in             (* n = atoi(&c); *)
      let response_p := 0 + (n + 2) in               (* response_p = &response[0]; response_p += n+2; *)
      let length1 := length0 - (n + 2) in            (* length -= n+2; *)
      (* response[length] = 0; *)
      if bool_decide (0 <= length1 < Z.of_nat (List.length response0)) then
        let response1 := <[Z.to_nat length1 := nul]> response0 in
        let length2 := length1 - 1 in                (* length--; *)
        Some {| response := response1; response_p := response_p; length := length2 |}
      else None
  end.

(** The count [n] that [atoi(&c)] reads for a response. *)
Definition digit_count (behind : string) (response0 : list ascii) : Z :=
  match response0 !! 1%nat with
  | Some c => atoi (String c behind)
  | None => 0
  end.

(** The memory behind [c] does not begin with a digit: after a digit [c],
    [atoi] stops there. *)
Definition no_digit_follows (behind : string) : Prop :=
  match behind with
  | EmptyString => True
  | String d _ => isdigit d = false
  end.

(** The characters [atoi] does not stop at when it meets them first: white
    space, a sign, a digit. *)
Definition starts_number (c : ascii) : bool :=
  isdigit c || isspace c || Ascii.eqb c "+" || Ascii.eqb c "-".

(** The bytes [fwrite(data, 1, length, fp)] writes to an open stream,
    [data] being the offset [p] in the array [mem]; a read outside the
    array has no defined result. *)
Definition fwrite (mem : list ascii) (p : Z) (len : Z) : option (list ascii) :=
  if bool_decide (0 <= p /\ 0 <= len /\ p + len <= Z.of_nat (List.length mem))
  then Some (take (Z.to_nat len) (drop (Z.to_nat p) mem))
  else None.

(** [file_dump]: the contents of the file after it.  The result of
    [fopen] is not checked: when the file does not open, a null stream is
    handed to [fwrite] and [fclose], which has no defined result. *)
Definition file_dump (opened : bool) (mem : list ascii) (p : Z) (len : Z)
  : option (list ascii) :=
  if opened then fwrite mem p len else None.

(** The decode step (lines 62 to 74): from the raw response to the offset,
    the length and the bytes handed to [file_dump]. *)
Definition decode (behind : string) (response0 : list ascii) (length0 : Z)
  : option (Z * Z * list ascii) :=
  match strip behind response0 length0 with
  | None => None
  | Some st =>
      match fwrite (response st) (response_p st) (length st) with
      | None => None
      | Some bytes => Some (response_p st, length st, bytes)
      end
  end.

(** A finished run: the status returned, the text printed on standard
    output and the contents of the file written. *)
Record run := {
  status : Z;
  stdout : string;
  file : list ascii;
}.

(** The line printed by [printf("Saved screenshot to %s\n", filename)]. *)
Definition saved (filename : string) : string :=
  "Saved screenshot to " +:+ filename +:+ String newline EmptyString.

(** [capture_screenshot]; [None] is a run C leaves undefined.  None of
    the three results of the transport is looked at. *)
Definition capture_screenshot (w : world) (ip filename : string) (timeout : Z)
  : option run :=
  let device := connect_result w in                  (* device = lxi_connect(ip); *)
  let _ := send_result w in                          (* lxi_send(...); *)
  let _ := receive_result w in                       (* lxi_receive(...); *)
  match strip (after_c w) (received w) (length_read w) with
  | None => None
  | Some st =>
      match file_dump (fopen_succeeds w filename)
              (response st) (response_p st) (length st) with
      | None => None
      | Some bytes =>
          Some {| status := 0;                       (* return 0; *)
                  stdout := saved filename;  (* printf("Saved screenshot to %s\n", filename); *)
                  file := bytes |}
      end
  end.

(** [main]: the exit status of the process and what it printed
    ([lxi_init] has no effect the model records). *)
Definition main (w : world) (argv : list string) : option run :=
  match argv with
  | [_; ip; filename] => capture_screenshot w ip filename 5
  | _ =>
      Some {| status := EXIT_FAILURE;
              stdout := "Usage: rigol_1000z_screenshot <ip> <filename>" +:+ String newline EmptyString;
              file := [] |}
  end.

End Screenshot.


(** ** [getopt_long]

    The option scanner of the C library, which [parse_options] calls in a
    loop.  It is not part of the repository: the model follows the behaviour
    the GNU C library documents for it (getopt(3)), for option strings
    without a leading [+], [-] or [:] and without [W;], which is what the
    program passes, and with [POSIXLY_CORRECT] unset, so that the scanner
    permutes the vector and non-option elements end up behind the options.
    The messages it prints on standard error are left out. *)

Module Getopt.
Import Libc.

Inductive has_arg_t := no_argument | required_argument | optional_argument.

(** A [struct option] whose [flag] is null, as in every table of the
    program: the scanner returns [val]. *)
Record long_option := {
  name : string;
  has_arg : has_arg_t;
  val : ascii;
}.

(** What the library remembers from one call to the next, with the vector
    kept in the order the scanner has given it so far:
    [scanned ++ nonopts ++ rest] is [argv] once the element being read is
    finished, [scanned] being the elements before the first non-option
    passed over. *)
Record getopt_data := {
  scanned : list string;   (* the elements before [optind], options and their arguments *)
  nonopts : list string;   (* the non-option elements passed over, in order *)
  nextchar : string;       (* what is left to read of a group of short options *)
  rest : list string;      (* the elements not looked at yet *)
  optarg : string;         (* the argument of the option returned; empty for none *)
}.

(** The vector as the caller sees it when the scanner has returned -1,
    and the value of [optind] then: the index of the first non-option. *)
Definition argv (g : getopt_data) : list string := scanned g ++ nonopts g ++ rest g.
Definition optind (g : getopt_data) : nat := List.length (scanned g).

(** The state of a scanner about to start at index [i] (the program sets
    [optind] before its first call). *)
Definition getopt_start (i : nat) (args : list string) : getopt_data :=
  {| scanned := take i args; nonopts := []; nextchar := EmptyString;
     rest := drop i args; optarg := EmptyString |}.

(** An element that is no option: it does not start with [-], or it is
    [-] alone. *)
Definition nonoption (a : string) : bool :=
  match a with
  | String c (String _ _) => negb (Ascii.eqb c "-")
  | _ => true
  end.

(** [strchr(optstring, c)]: what follows the first [c] in [optstring]. *)
Fixpoint after_char (c : ascii) (s : string) : option string :=
  match s with
  | EmptyString => None
  | String d s' => if Ascii.eqb c d then Some s' else after_char c s'
  end.

(** How the option string declares the short option [c]. *)
Definition short_kind (optstring : string) (c : ascii) : option has_arg_t :=
  if Ascii.eqb c ":" || Ascii.eqb c ";" then None
  else match after_char c optstring with
       | None => None
       | Some (String ":" (String ":" _)) => Some optional_argument
       | Some (String ":" _) => Some required_argument
       | Some _ => Some no_argument
       end.

Definition unknown : Z := code "?".
Definition finished : Z := -1.

(** One short option, read from the group [grp] of an element that is
    already counted among the scanned ones. *)
Definition short_option (optstring : string) (g : getopt_data)
    (c : ascii) (grp : string) : Z * getopt_data :=
  match short_kind optstring c with
  | None =>
      (unknown, {| scanned := scanned g; nonopts := nonopts g; nextchar := grp;
                   rest := rest g; optarg := EmptyString |})
  | Some no_argument =>
      (code c, {| scanned := scanned g; nonopts := nonopts g; nextchar := grp;
                  rest := rest g; optarg := EmptyString |})
  | Some optional_argument =>
      (code c, {| scanned := scanned g; nonopts := nonopts g; nextchar := EmptyString;
                  rest := rest g; optarg := grp |})
  | Some required_argument =>
      match grp, rest g with
      | String _ _, _ =>
          (code c, {| scanned := scanned g; nonopts := nonopts g; nextchar := EmptyString;
                      rest := rest g; optarg := grp |})
      | EmptyString, a :: rest' =>
          (code c, {| scanned := scanned g ++ [a]; nonopts := nonopts g;
                      nextchar := EmptyString; rest := rest'; optarg := a |})
      | EmptyString, [] =>
          (unknown, {| scanned := scanned g; nonopts := nonopts g;
                       nextchar := EmptyString; rest := []; optarg := EmptyString |})
      end
  end.

(** The name of a long option up to [=], and what follows the [=]. *)
Fixpoint split_eq (s : string) : string * option string :=
  match s with
  | EmptyString => (EmptyString, None)
  | String "=" s' => (EmptyString, Some s')
  | String c s' => let (n, v) := split_eq s' in (String c n, v)
  end.

Definition same_option (p q : long_option) : bool :=
  match has_arg p, has_arg q with
  | no_argument, no_argument
  | required_argument, required_argument
  | optional_argument, optional_argument => Ascii.eqb (val p) (val q)
  | _, _ => false
  end.

(** The entry of the table a name selects: the first exact match, else
    the abbreviated one when every entry the name is a prefix of is the
    same option.  [inr true] is an ambiguous name, [inr false] an unknown
    one. *)
Definition find_long (longopts : list long_option) (nm : string)
  : long_option + bool :=
  match List.filter (fun p => String.eqb (name p) nm) longopts with
  | p :: _ => inl p
  | [] =>
      match List.filter (fun p => String.prefix nm (name p)) longopts with
      | [] => inr false
      | p :: more => if forallb (same_option p) more then inl p else inr true
      end
  end.

(** A long option [--body]; the element is counted among the scanned
    ones. *)
Definition long_option_step (longopts : list long_option) (g : getopt_data)
    (body : string) : Z * getopt_data :=
  let (nm, value) := split_eq body in
  let fail := (unknown, {| scanned := scanned g; nonopts := nonopts g;
                           nextchar := EmptyString; rest := rest g;
                           optarg := EmptyString |}) in
  match find_long longopts nm with
  | inr _ => fail
  | inl p =>
      match value, has_arg p, rest g with
      | Some _, no_argument, _ => fail
      | Some v, _, _ =>
          (code (val p), {| scanned := scanned g; nonopts := nonopts g;
                            nextchar := EmptyString; rest := rest g; optarg := v |})
      | None, required_argument, a :: rest' =>
          (code (val p), {| scanned := scanned g ++ [a]; nonopts := nonopts g;
                            nextchar := EmptyString; rest := rest'; optarg := a |})
      | None, required_argument, [] =>
          (unknown, {| scanned := scanned g; nonopts := nonopts g;
                       nextchar := EmptyString; rest := []; optarg := EmptyString |})
      | None, _, _ =>
          (code (val p), {| scanned := scanned g; nonopts := nonopts g;
                            nextchar := EmptyString; rest := rest g;
                            optarg := EmptyString |})
      end
  end.

(** The scan for the next element that is an option, from elements [l]
    not looked at yet, [skipped] being the non-options passed over. *)
Fixpoint next_element (optstring : string) (longopts : list long_option)
    (done skipped l : list string) : Z * getopt_data :=
  match l with
  | [] =>
      (finished, {| scanned := done; nonopts := skipped; nextchar := EmptyString;
                    rest := []; optarg := EmptyString |})
  | a :: l' =>
      if nonoption a then next_element optstring longopts done (skipped ++ [a]) l'
      else
        match a with
        | String _ (String c grp) =>
            let g := {| scanned := done ++ [a]; nonopts := skipped;
                        nextchar := EmptyString; rest := l'; optarg := EmptyString |} in
            if Ascii.eqb c "-" then
              match grp with
              | EmptyString => (finished, g)         (* "--": the end of the options *)
              | String _ _ => long_option_step longopts g grp
              end
            else short_option optstring g c grp
        | _ => (unknown, {| scanned := done; nonopts := skipped; nextchar := EmptyString;
                            rest := l'; optarg := EmptyString |})
        end
  end.

(** One call [getopt_long(argc, argv, optstring, longopts, &index)]: the
    value returned and the state left. *)
Definition getopt_long (optstring : string) (longopts : list long_option)
    (g : getopt_data) : Z * getopt_data :=
  match nextchar g with
  | String c grp => short_option optstring g c grp
  | EmptyString => next_element optstring longopts (scanned g) (nonopts g) (rest g)
  end.

End Getopt.

(** ** src/options.c *)

Module Options.
Import Libc Getopt.

(** Modelled from the spec: [options.h], which declares [command_t] and
    [struct option_t], is not among the sources.  The commands are the two
    constants [parse_options] assigns (the spec's [Discover] and
    [SendCommand]). *)
Inductive command_t := DISCOVER | SCPI.

Definition command_eqb (a b : command_t) : bool :=
  match a, b with
  | DISCOVER, DISCOVER | SCPI, SCPI => true
  | _, _ => false
  end.

(** Modelled from the spec: [struct option_t] of the missing [options.h],
    with the fields [parse_options] uses, in the order of the initialiser
    of [option] and typed as the code uses them ([ip] and [scpi_command]
    are arrays filled by [strncpy], of a size the sources at hand do not
    give: the field of the record is the characters stored in the array;
    [filename] is a pointer). *)
Record option_t := {
  command : command_t;
  timeout : Z;
  ip : string;
  scpi_command : string;
  dump_hex : bool;
  dump_file : bool;
  filename : string;
  interactive : bool;
  run_script : bool;
}.

(** The initial value of the global [option] (lines 42 to 53); [option]
    itself names a type in Rocq. *)
Definition option0 : option_t :=
  {| command := SCPI;             (* Default command *)
     timeout := 1;                (* Default timeout *)
     ip := EmptyString;           (* Default IP address *)
     scpi_command := "*IDN?";     (* Default SCPI command *)
     dump_hex := false;           (* Default no hex dump *)
     dump_file := false;          (* Default no file dump *)
     filename := EmptyString;     (* Default dump filename *)
     interactive := false;        (* Default no interactive mode *)
     run_script := false |}.      (* Default no run script *)

Definition set_command (v : command_t) (o : option_t) : option_t :=
  {| command := v; timeout := timeout o; ip := ip o; scpi_command := scpi_command o;
     dump_hex := dump_hex o; dump_file := dump_file o; filename := filename o;
     interactive := interactive o; run_script := run_script o |}.
Definition set_timeout (v : Z) (o : option_t) : option_t :=
  {| command := command o; timeout := v; ip := ip o; scpi_command := scpi_command o;
     dump_hex := dump_hex o; dump_file := dump_file o; filename := filename o;
     interactive := interactive o; run_script := run_script o |}.
Definition set_ip (v : string) (o : option_t) : option_t :=
  {| command := command o; timeout := timeout o; ip := v; scpi_command := scpi_command o;
     dump_hex := dump_hex o; dump_file := dump_file o; filename := filename o;
     interactive := interactive o; run_script := run_script o |}.
Definition set_scpi_command (v : string) (o : option_t) : option_t :=
  {| command := command o; timeout := timeout o; ip := ip o; scpi_command := v;
     dump_hex := dump_hex o; dump_file := dump_file o; filename := filename o;
     interactive := interactive o; run_script := run_script o |}.
Definition set_dump_hex (v : bool) (o : option_t) : option_t :=
  {| command := command o; timeout := timeout o; ip := ip o; scpi_command := scpi_command o;
     dump_hex := v; dump_file := dump_file o; filename := filename o;
     interactive := interactive o; run_script := run_script o |}.
Definition set_dump_file (v : bool) (o : option_t) : option_t :=
  {| command := command o; timeout := timeout o; ip := ip o; scpi_command := scpi_command o;
     dump_hex := dump_hex o; dump_file := v; filename := filename o;
     interactive := interactive o; run_script := run_script o |}.
Definition set_filename (v : string) (o : option_t) : option_t :=
  {| command := command o; timeout := timeout o; ip := ip o; scpi_command := scpi_command o;
     dump_hex := dump_hex o; dump_file := dump_file o; filename := v;
     interactive := interactive o; run_script := run_script o |}.
Definition set_interactive (v : bool) (o : option_t) : option_t :=
  {| command := command o; timeout := timeout o; ip := ip o; scpi_command := scpi_command o;
     dump_hex := dump_hex o; dump_file := dump_file o; filename := filename o;
     interactive := v; run_script := run_script o |}.
Definition set_run_script (v : bool) (o : option_t) : option_t :=
  {| command := command o; timeout := timeout o; ip := ip o; scpi_command := scpi_command o;
     dump_hex := dump_hex o; dump_file := dump_file o; filename := filename o;
     interactive := interactive o; run_script := v |}.

(** Standard output is a list of pieces: text, or the expansion of the
    macro [VERSION], whose definition ([config.h], generated when the
    program is built) is not among the sources. *)
Inductive chunk := Text (s : string) | Version.

Definition nl : string := String newline EmptyString.

(** [print_help]: the text printed, with [argv[0]] and the current
    [option.timeout]. *)
Definition print_help (o : option_t) (argv0 : string) : list chunk :=
  [Text ("Usage: " +:+ argv0 +:+ " [--version] [--help] <command> [<options>] [<scpi command>]" +:+ nl
      +:+ nl
      +:+ "  -v, --version                Display version" +:+ nl
      +:+ "  -h, --help                   Display help" +:+ nl
      +:+ nl
      +:+ "Commands:" +:+ nl
      +:+ "  discover                     Search for LXI devices" +:+ nl
      +:+ "  scpi                         Send SCPI command" +:+ nl
      +:+ nl
      +:+ "Discover options:" +:+ nl
      +:+ "  -t, --timeout <seconds>      Timeout (default: " +:+ pretty (timeout o) +:+ ")" +:+ nl
      +:+ nl
      +:+ "Scpi options:" +:+ nl
      +:+ "  -i, --ip <ip>                IP address" +:+ nl
      +:+ "  -t, --timeout <seconds>      Timeout (default: " +:+ pretty (timeout o) +:+ ")" +:+ nl
      +:+ "  -x, --dump-hex               Print response in hexidecimal" +:+ nl
      +:+ "  -f, --dump-file <filename>   Save response to file" +:+ nl
      +:+ "  -a, --interactive            Enter interactive mode" +:+ nl
      +:+ "  -r, --run-script <filename>  Run script" +:+ nl
      +:+ nl)].

(** [print_version]. *)
Definition print_version : list chunk := [Text "lxi v"; Version; Text nl].

(** How a call of [parse_options] ends: it returns with the record filled
    in, or the process is ended by [exit] with a status after printing
    [out], or the call is one the model has no record or exit for
    ([Fault]): the argument vector has no [argv[1]] to read, or the call
    returns with a field that [strncpy] left without terminator.
    [Stuck] is the model's loop running out of steps; it never occurs
    (shown below). *)
Inductive outcome :=
| Return (o : option_t)
| Exit (status : Z) (out : list chunk)
| Fault
| Stuck.

(** The body of a [switch]: go on with the record updated, or [exit]. *)
Inductive step :=
| Go (o : option_t)
| Stop (status : Z) (out : list chunk).

(** How an option loop ends. *)
Inductive loop_end :=
| Finished (g : getopt_data) (o : option_t)
| Exited (status : Z) (out : list chunk)
| NoFuel.

(** [while (c != -1) { switch (c) ...; c = getopt_long(..., optstring, ...); }] *)
Fixpoint option_loop (switch : Z -> string -> option_t -> step)
    (optstring : string) (longopts : list long_option)
    (fuel : nat) (c : Z) (g : getopt_data) (o : option_t) : loop_end :=
  if c =? -1 then Finished g o
  else
    match switch c (optarg g) o with
    | Stop status out => Exited status out
    | Go o' =>
        match fuel with
        | O => NoFuel
        | S fuel' =>
            let (c', g') := getopt_long optstring longopts g in
            option_loop switch optstring longopts fuel' c' g' o'
        end
    end.

(** A number of calls no scan exceeds: every call that returns an option
    uses up a character of the group being read or an element. *)
Definition weight (l : list string) : nat :=
  fold_right (fun a n => (String.length a + 1 + n)%nat) 0%nat l.
Definition rank (g : getopt_data) : nat :=
  (String.length (nextchar g) + weight (rest g))%nat.

Definition returned (c : Z) (a : ascii) : bool := c =? code a.

(** Lines 105 to 109 and 116 to 123. *)
Definition discover_options : list long_option :=
  [ {| name := "timeout"; has_arg := required_argument; val := "t" |} ].

Definition discover_switch (c : Z) (optarg : string) (o : option_t) : step :=
  if returned c "t" then Go (set_timeout (atoi optarg) o)
  else if returned c "?" then Stop EXIT_FAILURE []
  else Go o.

(** Lines 131 to 140 and 147 to 177. *)
Definition scpi_options : list long_option :=
  [ {| name := "timeout";     has_arg := required_argument; val := "t" |};
    {| name := "ip";          has_arg := required_argument; val := "i" |};
    {| name := "dump-hex";    has_arg := no_argument;       val := "x" |};
    {| name := "dump-file";   has_arg := required_argument; val := "f" |};
    {| name := "interactive"; has_arg := no_argument;       val := "a" |};
    {| name := "run-script";  has_arg := required_argument; val := "r" |} ].

Definition scpi_switch (c : Z) (optarg : string) (o : option_t) : step :=
  if returned c "t" then Go (set_timeout (atoi optarg) o)
  else if returned c "i" then Go (set_ip (strncpy optarg 500) o)
  else if returned c "x" then Go (set_dump_hex true o)
  else if returned c "f" then Go (set_filename optarg (set_dump_file true o))
  else if returned c "a" then Go (set_interactive true o)
  else if returned c "r" then Go (set_filename optarg (set_run_script true o))
  else if returned c "?" then Stop EXIT_FAILURE []
  else Go o.

(** Lines 185 to 190 and 197 to 209. *)
Definition global_options : list long_option :=
  [ {| name := "version"; has_arg := no_argument; val := "v" |};
    {| name := "help";    has_arg := no_argument; val := "h" |} ].

Definition global_switch (argv0 : string) (c : Z) (optarg : string) (o : option_t) : step :=
  if returned c "v" then Stop EXIT_SUCCESS print_version
  else if returned c "h" then Stop EXIT_SUCCESS (print_help o argv0)
  else if returned c "?" then Stop EXIT_FAILURE []
  else Go o.

(** Lines 95 to 212: the choice of the command and its option loop, for a
    vector of two elements or more ([argc == 1] is dealt with before).  In
    the [scpi] branch the first call is given ["i:t:xf:ar:"] and the calls
    in the loop ["t:"] (line 178).  Each loop is given one step more than
    the rank of the scanner, which is enough ([option_loop_ends]). *)
Definition parse_flags (argv : list string) : loop_end :=
  match argv with
  | argv0 :: argv1 :: _ =>
      let g := getopt_start 2 argv in                (* optind = 2; *)
      if streq argv1 "discover" then
        let o := set_command DISCOVER option0 in
        let (c, g) := getopt_long "t:" discover_options g in
        option_loop discover_switch "t:" discover_options (S (rank g)) c g o
      else if streq argv1 "scpi" then
        let o := set_command SCPI option0 in
        let (c, g) := getopt_long "i:t:xf:ar:" scpi_options g in
        option_loop scpi_switch "t:" scpi_options (S (rank g)) c g o
      else
        let g := getopt_start 1 argv in              (* optind = 1; *)
        let (c, g) := getopt_long "vh" global_options g in
        option_loop (global_switch argv0) "vh" global_options (S (rank g)) c g option0
  | _ => NoFuel
  end.

(** A field of the record holds a finished string: [strncpy] stored fewer
    than 500 characters in it, so a terminator follows them. *)
Definition terminated (field : string) : bool := (String.length field <? 500)%nat.

(** The return of [parse_options] to its caller.  The fields [ip] and
    [scpi_command] of the record are the characters [strncpy] stored; with
    500 characters stored, the string the caller reads from the field
    depends on the array sizes of the missing [options.h], and the model
    gives no record. *)
Definition hand_back (o : option_t) : outcome :=
  if terminated (ip o) && terminated (scpi_command o) then Return o else Fault.

(** Lines 214 to 232, from the vector and [optind] the scan has left.
    The outcome of the test [strlen(option.ip) == 0] is that of the
    characters stored: the field is empty or begins with a character. *)
Definition check_arguments (argv : list string) (optind : nat) (o : option_t)
  : outcome :=
  let argc := List.length argv in
  let unknown_arguments (optind : nat) (o : option_t) : outcome :=
    if (optind <? argc)%nat then
      Exit EXIT_FAILURE
        [Text ("Unknown arguments: "
               +:+ String.concat EmptyString (map (fun a => a +:+ " ") (drop optind argv))
               +:+ nl)]
    else hand_back o in
  if command_eqb (command o) SCPI && negb (optind =? argc)%nat then
    match argv !! optind with
    | None => Fault
    | Some a =>
        let o := set_scpi_command (strncpy a 500) o in   (* argv[optind++] *)
        let optind := S optind in
        if strlen (ip o) =? 0 then
          Exit EXIT_FAILURE [Text ("Error: No IP address specified" +:+ nl)]
        else unknown_arguments optind o
    end
  else unknown_arguments optind o.

(** [parse_options(argc, argv)], [argc] being the length of [argv]. *)
Definition parse_options (argv : list string) : outcome :=
  match argv with
  | [] => Fault
  | [argv0] => Exit EXIT_SUCCESS (print_help option0 argv0)   (* argc == 1 *)
  | _ =>
      match parse_flags argv with
      | Finished g o => check_arguments (Getopt.argv g) (optind g) o
      | Exited status out => Exit status out
      | NoFuel => Stuck
      end
  end.

(** *** What a command line supplies

    The notions the properties below are stated with, read off the scan
    itself. *)

(** The effect of one returned option on the record, under a [switch]. *)
Definition apply_option (switch : Z -> string -> option_t -> step)
    (o : option_t) (f : Z * string) : option_t :=
  match switch (fst f) (snd f) o with
  | Go o' => o'
  | Stop _ _ => o
  end.

(** The options the scanner returns in the course of a loop, each with
    its argument, up to the end of the scan. *)
Fixpoint returned_options (optstring : string) (longopts : list long_option)
    (fuel : nat) (c : Z) (g : getopt_data) : list (Z * string) :=
  if c =? -1 then []
  else
    (c, optarg g) ::
    match fuel with
    | O => []
    | S fuel' =>
        let (c', g') := getopt_long optstring longopts g in
        returned_options optstring longopts fuel' c' g'
    end.

(** The flags an [scpi] command line supplies: what the scanner returns
    for it, with the option strings of the [scpi] branch. *)
Definition scpi_flags (argv : list string) : list (Z * string) :=
  let (c, g) := getopt_long "i:t:xf:ar:" scpi_options (getopt_start 2 argv) in
  returned_options "t:" scpi_options (S (rank g)) c g.

Definition supplies (a : ascii) (flags : list (Z * string)) : Prop :=
  exists arg, In (code a, arg) flags.

(** A flag that writes the shared [filename] field. *)
Definition names_file (f : Z * string) : bool :=
  returned (fst f) "f" || returned (fst f) "r".

(** The positional arguments: what the scan leaves from [optind] on. *)
Definition positionals (argv : list string) : list string :=
  match parse_flags argv with
  | Finished g o => drop (optind g) (Getopt.argv g)
  | _ => []
  end.

(** The flags are accepted: the option loop runs to its end. *)
Definition accepted (argv : list string) : Prop :=
  exists g o, parse_flags argv = Finished g o.

End Options.

(** ** The TMC block format

    The format of a response as the specification words it: the marker, one
    digit [n], [n] decimal digits giving the length of the payload, the
    payload, one terminator byte. *)

Module Tmc.
Import Libc.

Definition digit (d : nat) : ascii := ascii_of_nat (48 + d).

(** The [n] low decimal digits of [len], most significant first. *)
Fixpoint decimal (n : nat) (len : nat) : list ascii :=
  match n with
  | O => []
  | S n' => decimal n' (len / 10) ++ [digit (len mod 10)]
  end.

Definition frame (n : nat) (payload : list ascii) (term : ascii) : list ascii :=
  "#"%char :: digit n :: decimal n (List.length payload) ++ payload ++ [term].

(** The digit count is a digit and the length fits in that many digits. *)
Definition valid (n : nat) (payload : list ascii) : Prop :=
  (1 <= n <= 9)%nat /\ (List.length payload < 10 ^ n)%nat.

(** The payload with the byte at [n + 1] from its end set to NUL, when it
    has that many bytes. *)
Definition overwritten (n : nat) (payload : list ascii) : list ascii :=
  if (n + 1 <=? List.length payload)%nat
  then <[(List.length payload - (n + 1))%nat := nul]> payload
  else payload.

End Tmc.

(** ** The positional arguments, by cases

    Lines 214 to 232 read only the elements from [optind] on.  [finish] is
    the same check written on that list, to state what the check does with
    no, one or several positional arguments. *)

Module Positional.
Import Libc Getopt Options.

(** The line that lists the arguments left over. *)
Definition unknown_arguments (l : list string) : list chunk :=
  [Text ("Unknown arguments: "
         +:+ String.concat EmptyString (map (fun a => a +:+ " ") l)
         +:+ nl)].

Definition no_ip_address : list chunk :=
  [Text ("Error: No IP address specified" +:+ nl)].

Definition finish (pos : list string) (o : option_t) : outcome :=
  match command o, pos with
  | SCPI, a :: more =>
      match ip o, more with
      | EmptyString, _ => Exit EXIT_FAILURE no_ip_address
      | _, [] => hand_back (set_scpi_command (strncpy a 500) o)
      | _, _ => Exit EXIT_FAILURE (unknown_arguments more)
      end
  | _, [] => hand_back o
  | _, _ => Exit EXIT_FAILURE (unknown_arguments pos)
  end.

(** The flags of the [scpi] loop that write [timeout] and [ip]. *)
Definition writes_timeout (f : Z * string) : bool := returned (fst f) "t".
Definition writes_ip (f : Z * string) : bool := returned (fst f) "i".

End Positional.

(** * Properties *)

Import Libc Getopt Options.

(** ** The option scanner makes progress *)

Section Progress.

Variable optstring : string.
Variable longopts : list long_option.

Lemma short_option_rank g c grp r g' :
  short_option optstring g c grp = (r, g') ->
  (rank g' <= String.length grp + weight (rest g))%nat.
Proof.
  unfold short_option, rank.
  destruct (short_kind optstring c) as [[| |]|];
    [| destruct grp; [destruct (rest g) eqn:E|] | |];
    intros [= <- <-]; simpl; try rewrite E; simpl; lia.
Qed.

Lemma long_option_rank g body r g' :
  long_option_step longopts g body = (r, g') ->
  (rank g' <= weight (rest g))%nat.
Proof.
  unfold long_option_step, rank.
  destruct (split_eq body) as [nm value].
  destruct (find_long longopts nm) as [p|b].
  - destruct value, (has_arg p), (rest g) eqn:E;
      intros [= <- <-]; simpl; try rewrite E; simpl; lia.
  - intros [= <- <-]; simpl; lia.
Qed.

Lemma next_element_rank l : forall done skipped r g',
  next_element optstring longopts done skipped l = (r, g') ->
  r <> -1 -> (rank g' < weight l)%nat.
Proof.
  induction l as [|a l IH]; intros done skipped r g'; simpl.
  - intros [= <- <-]; unfold finished; congruence.
  - destruct (nonoption a) eqn:Ha.
    + intros H Hr. specialize (IH _ _ _ _ H Hr). lia.
    + destruct a as [|c0 [|c1 grp]]; try discriminate Ha.
      destruct (Ascii.eqb c1 "-").
      * destruct grp as [|c2 body].
        -- intros [= <- <-]; unfold finished; congruence.
        -- intros H _. apply long_option_rank in H. simpl in *. lia.
      * intros H _. apply short_option_rank in H. simpl in *. lia.
Qed.

(** A call that returns an option leaves strictly less to scan. *)
Lemma getopt_long_rank g r g' :
  getopt_long optstring longopts g = (r, g') ->
  r <> -1 -> (rank g' < rank g)%nat.
Proof.
  unfold getopt_long. destruct (nextchar g) as [|c grp] eqn:E.
  - intros H Hr. apply next_element_rank in H; auto. unfold rank at 2. rewrite E. simpl. lia.
  - intros H _. apply short_option_rank in H. unfold rank at 2. rewrite E. simpl. lia.
Qed.

Variable switch : Z -> string -> option_t -> step.

(** With more steps than the rank of the scanner the loop ends by itself. *)
Lemma option_loop_ends fuel : forall c g o,
  (rank g < fuel)%nat ->
  option_loop switch optstring longopts fuel c g o <> NoFuel.
Proof.
  induction fuel as [|fuel IH]; intros c g o Hlt; [lia|].
  simpl. destruct (c =? -1); [discriminate|].
  destruct (switch c (optarg g) o) as [o'|]; [|discriminate].
  destruct (getopt_long optstring longopts g) as [c' g'] eqn:E.
  destruct (Z.eq_dec c' (-1)) as [->|Hc'].
  - destruct fuel; simpl; discriminate.
  - apply IH. apply getopt_long_rank in E; auto. lia.
Qed.

End Progress.

(** ** [parse_options] always ends *)

Lemma parse_flags_ends argv0 argv1 args :
  parse_flags (argv0 :: argv1 :: args) <> NoFuel.
Proof.
  unfold parse_flags.
  destruct (streq argv1 "discover"); [|destruct (streq argv1 "scpi")];
    match goal with
    | |- context [getopt_long ?os ?lo ?g] => destruct (getopt_long os lo g) as [c g']
    end;
    apply option_loop_ends; lia.
Qed.

(** The loop of the model never runs out of steps: for every argument
    vector [parse_options] returns, exits, or faults on an empty vector. *)
Theorem parse_options_ends argv : parse_options argv <> Stuck.
Proof.
  destruct argv as [|argv0 [|argv1 args]]; try discriminate.
  unfold parse_options.
  pose proof (parse_flags_ends argv0 argv1 args) as H.
  destruct (parse_flags (argv0 :: argv1 :: args)); try congruence; try discriminate.
  unfold check_arguments, hand_back.
  repeat match goal with
         | |- context [if ?b then _ else _] => destruct b
         | |- context [match ?x with Some _ => _ | None => _ end] => destruct x
         end; discriminate.
Qed.

(** ** The option loop as a fold over the options returned *)

Section Loop.

Variable optstring : string.
Variable longopts : list long_option.
Variable switch : Z -> string -> option_t -> step.

Lemma option_loop_fold fuel : forall c g o g' o',
  option_loop switch optstring longopts fuel c g o = Finished g' o' ->
  o' = fold_left (apply_option switch) (returned_options optstring longopts fuel c g) o.
Proof.
  induction fuel as [|fuel IH]; intros c g o g' o'; simpl.
  - destruct (c =? -1); [intros [= _ <-]; reflexivity|].
    destruct (switch c (optarg g) o); discriminate.
  - destruct (c =? -1); [intros [= _ <-]; reflexivity|].
    simpl. unfold apply_option at 2. simpl.
    destruct (switch c (optarg g) o) as [o1|]; [|discriminate].
    destruct (getopt_long optstring longopts g) as [c1 g1].
    apply IH.
Qed.

(** A property of the record that every option keeps is kept by the
    loop. *)
Lemma option_loop_keeps (P : option_t -> Prop) :
  (forall c a o o', switch c a o = Go o' -> P o -> P o') ->
  forall fuel c g o g' o',
    option_loop switch optstring longopts fuel c g o = Finished g' o' ->
    P o -> P o'.
Proof.
  intros Hstep fuel. induction fuel as [|fuel IH]; intros c g o g' o'; simpl.
  - destruct (c =? -1); [intros [= _ <-]; auto|].
    destruct (switch c (optarg g) o); discriminate.
  - destruct (c =? -1); [intros [= _ <-]; auto|].
    destruct (switch c (optarg g) o) as [o1|] eqn:E; [|discriminate].
    destruct (getopt_long optstring longopts g) as [c1 g1].
    intros H Ho. eapply IH; eauto.
Qed.

End Loop.

(** No option of any of the three loops writes [scpi_command] or
    [command]. *)
Lemma scpi_switch_frame c a o o' :
  scpi_switch c a o = Go o' ->
  scpi_command o' = scpi_command o /\ command o' = command o.
Proof.
  unfold scpi_switch.
  repeat match goal with |- context [if ?b then _ else _] => destruct b end;
    intros [= <-]; auto.
Qed.

Lemma discover_switch_frame c a o o' :
  discover_switch c a o = Go o' ->
  scpi_command o' = scpi_command o /\ command o' = command o.
Proof.
  unfold discover_switch.
  repeat match goal with |- context [if ?b then _ else _] => destruct b end;
    intros [= <-]; auto.
Qed.

Lemma global_switch_frame argv0 c a o o' :
  global_switch argv0 c a o = Go o' ->
  scpi_command o' = scpi_command o /\ command o' = command o.
Proof.
  unfold global_switch.
  repeat match goal with |- context [if ?b then _ else _] => destruct b end;
    intros [= <-]; auto.
Qed.

(** After the option loop [scpi_command] still holds its default. *)
Lemma parse_flags_scpi_command argv g o :
  parse_flags argv = Finished g o -> scpi_command o = "*IDN?".
Proof.
  destruct argv as [|argv0 [|argv1 args]]; try discriminate.
  unfold parse_flags.
  destruct (streq argv1 "discover"); [|destruct (streq argv1 "scpi")];
    match goal with
    | |- context [getopt_long ?os ?lo ?g] => destruct (getopt_long os lo g) as [c g1]
    end;
    intros H;
    eapply (option_loop_keeps _ _ _ (fun o => scpi_command o = "*IDN?")) in H;
    eauto; intros c' a' o1 o2 Hs Ho.
  - apply discover_switch_frame in Hs as [-> _]; auto.
  - apply scpi_switch_frame in Hs as [-> _]; auto.
  - apply global_switch_frame in Hs as [-> _]; auto.
Qed.

(** ** The flags of the [scpi] command *)

Ltac code_clash :=
  match goal with
  | H : code ?a = code ?b |- _ => vm_compute in H; discriminate H
  | H : code ?a <> code ?a |- _ => exfalso; apply H; reflexivity
  end.

(** Case analysis on the option a [switch] is given. *)
Ltac switch_cases :=
  unfold apply_option, scpi_switch, names_file, returned; cbn [fst snd];
  repeat match goal with
         | |- context [?c =? ?k] =>
             destruct (Z.eqb_spec c k); [try subst c|]; try code_clash; cbn
         end.

Lemma scpi_loop_flags argv0 args g o :
  parse_flags (argv0 :: "scpi" :: args) = Finished g o ->
  o = fold_left (apply_option scpi_switch) (scpi_flags (argv0 :: "scpi" :: args))
        (set_command SCPI option0).
Proof.
  unfold parse_flags, scpi_flags. simpl streq. cbv iota.
  destruct (getopt_long _ scpi_options _) as [c g1].
  apply option_loop_fold.
Qed.

Lemma second_is_scpi (argv : list string) :
  argv !! 1%nat = Some "scpi" -> exists argv0 args, argv = argv0 :: "scpi" :: args.
Proof.
  destruct argv as [|argv0 [|argv1 args]]; try discriminate.
  intros [= ->]. eauto.
Qed.

(** Only the IP flag writes [ip]. *)
Lemma flags_keep_ip flags : forall o,
  ~ supplies "i" flags ->
  ip (fold_left (apply_option scpi_switch) flags o) = ip o.
Proof.
  induction flags as [|[c a] flags IH]; intros o Hno; [reflexivity|].
  simpl. rewrite IH.
  - revert Hno. switch_cases; try reflexivity.
    intros Hno. exfalso. apply Hno. exists a. left. reflexivity.
  - intros [arg Harg]. apply Hno. exists arg. right. exact Harg.
Qed.

Lemma flags_keep_command flags : forall o,
  command (fold_left (apply_option scpi_switch) flags o) = command o.
Proof.
  induction flags as [|[c a] flags IH]; intros o; [reflexivity|].
  simpl. rewrite IH. switch_cases; reflexivity.
Qed.

(** The two booleans are only ever set. *)
Lemma flags_dump_file flags : forall o,
  dump_file o = true \/ supplies "f" flags ->
  dump_file (fold_left (apply_option scpi_switch) flags o) = true.
Proof.
  induction flags as [|[c a] flags IH]; intros o H.
  - destruct H as [H|[arg []]]; exact H.
  - simpl. apply IH. destruct H as [H|[arg [Harg|Harg]]].
    + left. revert H. switch_cases; auto.
    + left. injection Harg as -> ->. switch_cases; auto.
    + right. exists arg. exact Harg.
Qed.

Lemma flags_run_script flags : forall o,
  run_script o = true \/ supplies "r" flags ->
  run_script (fold_left (apply_option scpi_switch) flags o) = true.
Proof.
  induction flags as [|[c a] flags IH]; intros o H.
  - destruct H as [H|[arg []]]; exact H.
  - simpl. apply IH. destruct H as [H|[arg [Harg|Harg]]].
    + left. revert H. switch_cases; auto.
    + left. injection Harg as -> ->. switch_cases; auto.
    + right. exists arg. exact Harg.
Qed.

(** Flags that name no file leave [filename] as it is. *)
Lemma flags_keep_filename flags : forall o,
  forallb (fun f => negb (names_file f)) flags = true ->
  filename (fold_left (apply_option scpi_switch) flags o) = filename o.
Proof.
  induction flags as [|[c a] flags IH]; intros o H; [reflexivity|].
  simpl in H. apply andb_true_iff in H as [Hf H].
  simpl. rewrite IH by exact H.
  revert Hf. switch_cases; intros; try reflexivity; discriminate.
Qed.

Lemma names_file_sets_filename c path o :
  names_file (c, path) = true ->
  filename (apply_option scpi_switch o (c, path)) = path.
Proof. switch_cases; intros; try reflexivity; discriminate. Qed.

(** ** The claims about [parse_options] *)

(** C4.  The six flags of the [scpi] command are not recognised in every
    order: a short flag other than [-t] that comes after another flag is
    rejected, because the calls of the scanner inside the loop are given the
    option string ["t:"] (line 178) where the first call is given
    ["i:t:xf:ar:"] (line 143).  With [-t 2] before [-i 192.0.2.5] the process
    exits with the failure status; with the two flags exchanged the same
    command line is parsed. *)
Theorem C4_short_flag_after_first_rejected (argv0 : string) :
  parse_options [argv0; "scpi"; "-t"; "2"; "-i"; "192.0.2.5"; "*IDN?"]
    = Exit EXIT_FAILURE []
  /\ parse_options [argv0; "scpi"; "-i"; "192.0.2.5"; "-t"; "2"; "*IDN?"]
    = Return (set_timeout 2 (set_ip "192.0.2.5" option0)).
Proof. split; reflexivity. Qed.

(** C5.  The "No IP address" diagnostic is not printed regardless of the
    other flags.  The command line [scpi -t 2 -x "*IDN?"] supplies an inline
    command and no IP address; the process exits with the failure status at
    [-x], which the calls of the scanner inside the loop do not know (line
    178, the defect of C4), and prints nothing on standard output.  With
    the same flag in its long form the diagnostic is printed. *)
Theorem C5_diagnostic_lost_at_short_flag (argv0 : string) :
  parse_options [argv0; "scpi"; "-t"; "2"; "-x"; "*IDN?"] = Exit EXIT_FAILURE []
  /\ parse_options [argv0; "scpi"; "-t"; "2"; "--dump-hex"; "*IDN?"]
     = Exit EXIT_FAILURE [Text ("Error: No IP address specified" +:+ nl)].
Proof. split; reflexivity. Qed.

(** X22.  For every [scpi] command line whose flags the option loop
    accepts, that never supplies the IP flag and that leaves a positional
    argument (the inline SCPI command), [parse_options] prints the
    diagnostic "Error: No IP address specified" and ends the process with
    the failure status.  The process ends inside [parse_options], so
    nothing that follows it, network I/O included, is run. *)
Theorem accepted_line_without_ip (argv : list string) :
  argv !! 1%nat = Some "scpi" ->
  accepted argv ->
  ~ supplies "i" (scpi_flags argv) ->
  positionals argv <> [] ->
  parse_options argv
    = Exit EXIT_FAILURE [Text ("Error: No IP address specified" +:+ nl)].
Proof.
  intros Hscpi [g [o Hflags]] Hno Hpos.
  destruct (second_is_scpi argv Hscpi) as [argv0 [args ->]].
  unfold positionals in Hpos. rewrite Hflags in Hpos.
  pose proof (scpi_loop_flags _ _ _ _ Hflags) as Ho.
  assert (Hip : ip o = EmptyString).
  { rewrite Ho, flags_keep_ip by exact Hno. reflexivity. }
  assert (Hcmd : command o = SCPI).
  { rewrite Ho, flags_keep_command. reflexivity. }
  unfold parse_options. rewrite Hflags. unfold check_arguments.
  rewrite Hcmd. simpl command_eqb.
  destruct (drop (optind g) (Getopt.argv g)) as [|a more] eqn:Hdrop; [congruence|].
  assert (Hlook : Getopt.argv g !! optind g = Some a).
  { rewrite <- (Nat.add_0_r (optind g)), <- lookup_drop, Hdrop. reflexivity. }
  assert (Hlt : (optind g < List.length (Getopt.argv g))%nat).
  { apply lookup_lt_Some in Hlook. exact Hlook. }
  destruct (Nat.eqb_spec (optind g) (List.length (Getopt.argv g))) as [Heq|_]; [lia|].
  simpl. rewrite Hlook. simpl. rewrite Hip. reflexivity.
Qed.

Lemma accepted_line_without_ip_witness :
  parse_options ["lxi"; "scpi"; "-x"; "--timeout"; "3"; "*IDN?"]
    = Exit EXIT_FAILURE [Text ("Error: No IP address specified" +:+ nl)].
Proof.
  apply (accepted_line_without_ip ["lxi"; "scpi"; "-x"; "--timeout"; "3"; "*IDN?"]).
  - reflexivity.
  - eexists _, _. reflexivity.
  - intros [arg Harg]. vm_compute in Harg.
    destruct Harg as [H|[H|[]]]; discriminate H.
  - discriminate.
Defined.

(** C6.  The command line [scpi -i 192.0.2.5 -t 2 "*IDN?"] is parsed
    without exit into the record with command [SCPI], address ["192.0.2.5"],
    timeout [2] and SCPI command ["*IDN?"], the other fields at their
    defaults. *)
Theorem C6_scpi_example (argv0 : string) :
  parse_options [argv0; "scpi"; "-i"; "192.0.2.5"; "-t"; "2"; "*IDN?"]
    = Return {| command := SCPI; timeout := 2; ip := "192.0.2.5";
                scpi_command := "*IDN?"; dump_hex := false; dump_file := false;
                filename := EmptyString; interactive := false; run_script := false |}.
Proof. reflexivity. Qed.

(** C9.  A command line that supplies the dump-file flag and the
    run-script flag in their short forms gets no record at all: in either
    order the process exits with the failure status at the second of the
    two, which the calls of the scanner inside the loop do not know (line
    178, the defect of C4); [run_script], or [dump_file], is never set.
    With the second flag in its long form both booleans are set and
    [filename] holds the later path. *)
Theorem C9_second_short_file_flag_rejected (argv0 : string) :
  parse_options [argv0; "scpi"; "-f"; "out.bin"; "-r"; "run.scpi"] = Exit EXIT_FAILURE []
  /\ parse_options [argv0; "scpi"; "-r"; "run.scpi"; "-f"; "out.bin"] = Exit EXIT_FAILURE []
  /\ parse_options [argv0; "scpi"; "-f"; "out.bin"; "--run-script"; "run.scpi"]
     = Return (set_filename "run.scpi"
                 (set_run_script true (set_dump_file true option0))).
Proof. repeat split; reflexivity. Qed.

(** X23.  For every [scpi] command line whose flags the option loop
    accepts and for which the scanner returns both the dump-file flag and
    the run-script flag, the loop leaves [dump_file] and [run_script] both
    true, and the one [filename] field holds the path of whichever of the
    two flags comes last among the flags returned. *)
Theorem accepted_file_flags_share_filename (argv : list string) (g : getopt_data) (o : option_t)
    (before after : list (Z * string)) (c : Z) (path : string) :
  argv !! 1%nat = Some "scpi" ->
  parse_flags argv = Finished g o ->
  supplies "f" (scpi_flags argv) ->
  supplies "r" (scpi_flags argv) ->
  scpi_flags argv = before ++ (c, path) :: after ->
  names_file (c, path) = true ->
  forallb (fun f => negb (names_file f)) after = true ->
  dump_file o = true /\ run_script o = true /\ filename o = path.
Proof.
  intros Hscpi Hflags Hf Hr Hsplit Hc Hafter.
  destruct (second_is_scpi argv Hscpi) as [argv0 [args ->]].
  pose proof (scpi_loop_flags _ _ _ _ Hflags) as Ho.
  split; [|split]; rewrite Ho.
  - apply flags_dump_file. right. exact Hf.
  - apply flags_run_script. right. exact Hr.
  - rewrite Hsplit, fold_left_app. simpl.
    rewrite flags_keep_filename by exact Hafter.
    apply names_file_sets_filename. exact Hc.
Qed.

Lemma accepted_file_flags_share_filename_witness :
  exists o,
    parse_options ["lxi"; "scpi"; "--ip"; "192.0.2.5"; "--dump-file"; "out.bin";
                   "--run-script"; "run.scpi"; "-t"; "2"] = Return o
    /\ dump_file o = true /\ run_script o = true /\ filename o = "run.scpi".
Proof.
  eexists. split; [reflexivity|].
  eapply (accepted_file_flags_share_filename
           ["lxi"; "scpi"; "--ip"; "192.0.2.5"; "--dump-file"; "out.bin";
            "--run-script"; "run.scpi"; "-t"; "2"]
           _ _
           [(code "i", "192.0.2.5"); (code "f", "out.bin")]
           [(code "t", "2")] (code "r") "run.scpi").
  - reflexivity.
  - reflexivity.
  - exists "out.bin". vm_compute. auto.
  - exists "run.scpi". vm_compute. auto.
  - reflexivity.
  - reflexivity.
  - reflexivity.
Defined.

(** C10.  For every argument vector that [parse_options] accepts and that
    leaves no positional argument, the field [scpi_command] of the record
    holds its default, ["*IDN?"] (line 47). *)
Theorem C10_scpi_command_default (argv : list string) (o : option_t) :
  parse_options argv = Return o ->
  positionals argv = [] ->
  scpi_command o = "*IDN?".
Proof.
  destruct argv as [|argv0 [|argv1 args]]; try discriminate.
  unfold parse_options, positionals.
  destruct (parse_flags (argv0 :: argv1 :: args)) as [g o1| |] eqn:Hflags;
    try discriminate.
  intros Hret Hdrop.
  apply parse_flags_scpi_command in Hflags.
  assert (Hlen : optind g = List.length (Getopt.argv g)).
  { apply (f_equal List.length) in Hdrop. rewrite length_drop in Hdrop. simpl in Hdrop.
    unfold optind, Getopt.argv in *. rewrite length_app in *. lia. }
  unfold check_arguments in Hret. rewrite Hlen, Nat.eqb_refl, Nat.ltb_irrefl in Hret.
  rewrite andb_false_r in Hret. unfold hand_back in Hret.
  destruct (terminated (ip o1) && terminated (scpi_command o1)); [|discriminate].
  injection Hret as <-. exact Hflags.
Qed.

Lemma C10_witness :
  scpi_command (set_interactive true option0) = "*IDN?".
Proof.
  apply (C10_scpi_command_default ["lxi"; "scpi"; "-a"]); reflexivity.
Defined.

(** The claim C10 as worded fails: interactive mode with no inline command
    is parsed into a record whose [scpi_command] is not empty. *)
Lemma C10_counterexample :
  exists o,
    parse_options ["lxi"; "scpi"; "-a"] = Return o
    /\ positionals ["lxi"; "scpi"; "-a"] = []
    /\ scpi_command o <> EmptyString.
Proof.
  exists (set_interactive true option0).
  split; [reflexivity|]. split; [reflexivity|]. discriminate.
Qed.

(** ** The decode step of [capture_screenshot] *)

Section Decode.
Import Screenshot.

(** The count read from one character alone is between 0 and 9. *)
Lemma atoi_char_range c : 0 <= atoi (String c EmptyString) <= 9.
Proof.
  destruct c as [[] [] [] [] [] [] [] []]; vm_compute; split; discriminate.
Qed.

Lemma atoi_digit d : (d <= 9)%nat -> atoi (String (Tmc.digit d) EmptyString) = Z.of_nat d.
Proof.
  intros H. do 10 (destruct d as [|d]; [reflexivity|]). lia.
Qed.

Lemma isdigit_digit d : (d <= 9)%nat -> isdigit (Tmc.digit d) = true.
Proof.
  intros H. do 10 (destruct d as [|d]; [reflexivity|]). lia.
Qed.

(** From a digit on, [atoi] reads the digits that follow. *)
Lemma atoi_from_digit c behind :
  isdigit c = true ->
  atoi (String c behind) = wrap32 (clamp_long (digits_from (digit_value c) behind)).
Proof.
  intros Hd.
  destruct c as [[] [] [] [] [] [] [] []]; try (vm_compute in Hd; discriminate Hd);
    reflexivity.
Qed.

(** After a digit that no digit follows, [atoi] reads that digit alone. *)
Lemma atoi_digit_alone c behind :
  isdigit c = true -> no_digit_follows behind ->
  atoi (String c behind) = atoi (String c EmptyString).
Proof.
  intros Hd Hb. rewrite !(atoi_from_digit c _ Hd).
  destruct behind as [|d rest]; [reflexivity|].
  simpl in Hb. simpl. rewrite Hb. reflexivity.
Qed.

Lemma digits_from_grows s : forall acc, 0 <= acc -> acc <= digits_from acc s.
Proof.
  induction s as [|d s IH]; intros acc Hacc; simpl; [lia|].
  destruct (isdigit d) eqn:Hd; [|lia].
  assert (0 <= digit_value d).
  { unfold isdigit in Hd. apply andb_true_iff in Hd as [Hd _].
    apply Z.leb_le in Hd. unfold digit_value. lia. }
  specialize (IH (10 * acc + digit_value d) ltac:(lia)). lia.
Qed.

(** Reading on from a digit, [atoi] returns no less than that digit, as
    long as the digits read stay within an [int]. *)
Lemma atoi_reads_on c behind :
  isdigit c = true ->
  digits_from (digit_value c) behind < 2 ^ 31 ->
  atoi (String c EmptyString) <= atoi (String c behind).
Proof.
  intros Hd Hfit. rewrite !(atoi_from_digit c _ Hd). simpl digits_from.
  assert (Hv : 0 <= digit_value c).
  { unfold isdigit in Hd. apply andb_true_iff in Hd as [Hd _].
    apply Z.leb_le in Hd. unfold digit_value. lia. }
  pose proof (digits_from_grows behind _ Hv) as Hgrow.
  unfold wrap32, clamp_long.
  rewrite !Z.min_r, !Z.max_r by lia.
  rewrite !Z.mod_small by lia. lia.
Qed.

(** A character that does not start a number makes [atoi] return 0,
    whatever follows it. *)
Lemma atoi_not_a_number c behind :
  starts_number c = false -> atoi (String c behind) = 0.
Proof.
  intros H.
  destruct c as [[] [] [] [] [] [] [] []]; try (vm_compute in H; discriminate H);
    reflexivity.
Qed.

Lemma decimal_length n : forall len, List.length (Tmc.decimal n len) = n.
Proof.
  induction n as [|n IH]; intros len; simpl; [reflexivity|].
  rewrite length_app, IH. simpl. lia.
Qed.

(** The decode step in terms of the array alone, once the count is
    known. *)
Lemma decode_unfold (behind : string) (r : list ascii) (len : Z) (c : ascii) :
  r !! 1%nat = Some c ->
  let n := atoi (String c behind) in
  0 < n + 2 ->
  0 <= len - (n + 2) - 1 ->
  len <= Z.of_nat (List.length r) ->
  decode behind r len
    = Some (n + 2, len - (n + 2) - 1,
            take (Z.to_nat (len - (n + 2) - 1))
              (drop (Z.to_nat (n + 2)) (<[Z.to_nat (len - (n + 2)) := nul]> r))).
Proof.
  intros Hc n Hp Hlo Hhi.
  unfold decode, strip. rewrite Hc. fold n.
  rewrite bool_decide_eq_true_2 by lia.
  cbn [response response_p length]. unfold fwrite.
  rewrite bool_decide_eq_true_2; [reflexivity|].
  rewrite length_insert. lia.
Qed.

(** What a defined decode step has computed. *)
Lemma decode_inv (behind : string) (r : list ascii) (len p l : Z)
    (bytes : list ascii) :
  decode behind r len = Some (p, l, bytes) ->
  exists c,
    r !! 1%nat = Some c
    /\ p = atoi (String c behind) + 2
    /\ 0 <= p
    /\ l = len - p - 1
    /\ 0 <= l
    /\ len <= Z.of_nat (List.length r) + 1
    /\ len - p < Z.of_nat (List.length r)
    /\ bytes = take (Z.to_nat l) (drop (Z.to_nat p) (<[Z.to_nat (len - p) := nul]> r)).
Proof.
  unfold decode, strip. destruct (r !! 1%nat) as [c|]; [|discriminate].
  set (n := atoi (String c behind)) in *.
  case_bool_decide; [|discriminate].
  cbn [response response_p length]. unfold fwrite.
  case_bool_decide as Hw; [|discriminate].
  rewrite length_insert in Hw.
  intros [= <- <- <-]. exists c.
  replace (0 + (n + 2)) with (n + 2) by lia.
  repeat split; lia.
Qed.

(** What the step returns for a framed response, whatever follows it in
    the array and whatever the [n] length digits [digits] are, when no
    digit follows [c] in memory. *)
Lemma decode_framed (behind : string) (n : nat) (digits payload pad : list ascii)
    (term : ascii) :
  (n <= 9)%nat ->
  List.length digits = n ->
  no_digit_follows behind ->
  decode behind ("#"%char :: Tmc.digit n :: digits ++ payload ++ [term] ++ pad)
         (Z.of_nat (n + 2 + List.length payload + 1))
    = Some (Z.of_nat n + 2, Z.of_nat (List.length payload), Tmc.overwritten n payload).
Proof.
  intros Hn Hdigits Hbehind.
  set (hd := "#"%char :: Tmc.digit n :: digits).
  assert (Hhd : List.length hd = (n + 2)%nat) by (unfold hd; simpl; lia).
  change ("#"%char :: Tmc.digit n :: digits ++ payload ++ [term] ++ pad)
    with (hd ++ payload ++ [term] ++ pad).
  assert (Hcount : atoi (String (Tmc.digit n) behind) = Z.of_nat n).
  { rewrite atoi_digit_alone by (auto using isdigit_digit). apply atoi_digit, Hn. }
  rewrite (decode_unfold behind _ _ (Tmc.digit n)); rewrite ?Hcount;
    [| reflexivity | lia | lia | rewrite !length_app; simpl; lia].
  f_equal. f_equal; [f_equal; lia|].
  replace (Z.to_nat (Z.of_nat (n + 2 + List.length payload + 1) - (Z.of_nat n + 2) - 1))
    with (List.length payload) by lia.
  replace (Z.to_nat (Z.of_nat n + 2)) with (List.length hd) by lia.
  replace (Z.to_nat (Z.of_nat (n + 2 + List.length payload + 1) - (Z.of_nat n + 2)))
    with (List.length payload + 1)%nat by lia.
  unfold Tmc.overwritten.
  destruct (Nat.leb_spec (n + 1) (List.length payload)) as [Hle|Hgt].
  - rewrite drop_insert_ge by lia. rewrite drop_app_length.
    rewrite take_insert_lt by lia. rewrite take_app_length.
    f_equal. lia.
  - rewrite drop_insert_lt by lia. rewrite drop_app_length.
    apply take_app_length.
Qed.

Lemma overwritten_differs (n : nat) (payload : list ascii) (b : ascii) :
  (n + 1 <= List.length payload)%nat ->
  payload !! (List.length payload - (n + 1))%nat = Some b ->
  b <> nul ->
  Tmc.overwritten n payload <> payload.
Proof.
  intros Hle Hb Hnul Heq. unfold Tmc.overwritten in Heq.
  destruct (Nat.leb_spec (n + 1) (List.length payload)); [|lia].
  apply (f_equal (fun l => l !! (List.length payload - (n + 1))%nat)) in Heq.
  rewrite list_lookup_insert_eq in Heq by lia. congruence.
Qed.

(** C1.  For every valid TMC frame, with anything behind it in the array,
    and whenever no digit follows [c] in memory (so that [atoi(&c)] reads
    the digit count [n] itself), the decode step returns the offset [n + 2]
    and the length [buffer length - (n + 2) - 1], which is the length of the
    payload; the bytes it returns are not the payload but
    [Tmc.overwritten n payload]: [response[length] = 0] (line 70) indexes
    the array from its start, not from the payload, and sets the payload
    byte at [n + 1] from its end to NUL.  Whenever that byte is not NUL
    already the bytes returned differ from the payload. *)
Theorem C1_frame_payload_byte_overwritten (behind : string) (n : nat)
    (payload pad : list ascii) (term : ascii) :
  Tmc.valid n payload ->
  no_digit_follows behind ->
  let total := Z.of_nat (List.length (Tmc.frame n payload term)) in
  decode behind (Tmc.frame n payload term ++ pad) total
    = Some (Z.of_nat n + 2, total - (Z.of_nat n + 2) - 1, Tmc.overwritten n payload)
  /\ total - (Z.of_nat n + 2) - 1 = Z.of_nat (List.length payload)
  /\ forall b,
       (n + 1 <= List.length payload)%nat ->
       payload !! (List.length payload - (n + 1))%nat = Some b ->
       b <> nul ->
       Tmc.overwritten n payload <> payload.
Proof.
  intros [[_ Hn] _] Hbehind total.
  assert (Htotal : total = Z.of_nat (n + 2 + List.length payload + 1)).
  { unfold total, Tmc.frame. simpl. rewrite !length_app, decimal_length. simpl. lia. }
  split; [|split].
  - rewrite Htotal. unfold Tmc.frame. simpl. rewrite <- !app_assoc.
    rewrite (decode_framed behind n (Tmc.decimal n (List.length payload))
               payload pad term Hn) by (auto using decimal_length).
    f_equal. f_equal. f_equal. lia.
  - lia.
  - intros b. apply overwritten_differs.
Qed.

(** The frame ["#12XY\n"], with the byte 6 of its length behind [c]. *)
Lemma C1_witness :
  decode (String (ascii_of_nat 6) EmptyString)
         (Tmc.frame 1 ["X"; "Y"]%char newline ++ []) 6
    = Some (3, 2, [nul; "Y"%char])
  /\ [nul; "Y"%char] <> ["X"; "Y"]%char.
Proof.
  destruct (C1_frame_payload_byte_overwritten (String (ascii_of_nat 6) EmptyString)
              1 ["X"; "Y"]%char [] newline)
    as [Hdecode [_ Hdiffer]].
  - split; simpl; lia.
  - reflexivity.
  - split; [exact Hdecode|].
    apply (Hdiffer "X"%char); [simpl; lia | reflexivity | discriminate].
Defined.

(** C2.  The nine bytes ["#15HELLO\n"], with anything behind them in the
    array, decode to five bytes at offset 3 that are not [HELLO]: the
    fourth is NUL, written over the second [L].  This is so whenever no
    digit follows [c] in memory; and whatever follows [c], the bytes
    returned are never [HELLO]. *)
Theorem C2_hello_decodes_with_nul (pad : list ascii) :
  (forall behind,
      no_digit_follows behind ->
      decode behind (list_ascii_of_string "#15HELLO" ++ [newline] ++ pad) 9
        = Some (3, 5, ["H"; "E"; "L"; nul; "O"]%char))
  /\ (forall behind p l,
        decode behind (list_ascii_of_string "#15HELLO" ++ [newline] ++ pad) 9
          <> Some (p, l, ["H"; "E"; "L"; "L"; "O"]%char)).
Proof.
  split.
  - intros behind Hbehind.
    exact (decode_framed behind 1 ["5"%char] (list_ascii_of_string "HELLO") pad newline
             ltac:(lia) eq_refl Hbehind).
  - intros behind p l H.
    apply decode_inv in H as (c & _ & _ & Hp & -> & Hl & Hsize & _ & Hbytes).
    assert (Hlen : Z.to_nat (9 - p - 1) = 5%nat).
    { apply (f_equal List.length) in Hbytes.
      rewrite length_take, length_drop, length_insert in Hbytes.
      change (List.length ["H"; "E"; "L"; "L"; "O"]%char) with 5%nat in Hbytes. lia. }
    assert (p = 3) as -> by lia.
    discriminate Hbytes.
Qed.

(** The byte 9 of the length behind [c]. *)
Lemma C2_witness :
  decode (String (ascii_of_nat 9) EmptyString)
         (list_ascii_of_string "#15HELLO" ++ [newline] ++ []) 9
    = Some (3, 5, ["H"; "E"; "L"; nul; "O"]%char).
Proof.
  apply (proj1 (C2_hello_decodes_with_nul [])). reflexivity.
Defined.

(** C3, as the code has it.  [capture_screenshot] does not look at what
    the transport reports.  A run that ends ends with the status 0 after
    printing "Saved screenshot to <filename>"; it ends whenever the decode
    step is defined on the contents of the array and of [length], written
    by [lxi_receive] or not, and the file opens; and it is the same run
    whatever [lxi_connect], [lxi_send] and [lxi_receive] returned.  In the
    other runs an access falls outside the array or a null stream is
    written to, which C leaves undefined: no run reports a failure. *)
Theorem C3_transport_failure_not_reported (w : world) (argv0 ip filename : string) :
  (forall r,
      main w [argv0; ip; filename] = Some r ->
      status r = EXIT_SUCCESS /\ stdout r = saved filename)
  /\ (forall p len bytes,
        decode (after_c w) (received w) (length_read w) = Some (p, len, bytes) ->
        fopen_succeeds w filename = true ->
        main w [argv0; ip; filename]
          = Some {| status := EXIT_SUCCESS; stdout := saved filename; file := bytes |})
  /\ (forall w',
        received w' = received w ->
        length_read w' = length_read w ->
        after_c w' = after_c w ->
        fopen_succeeds w' filename = fopen_succeeds w filename ->
        main w' [argv0; ip; filename] = main w [argv0; ip; filename]).
Proof.
  unfold main, capture_screenshot, decode, file_dump. split; [|split].
  - intros r.
    destruct (strip _ _ _) as [st|]; [|discriminate].
    destruct (fopen_succeeds w filename); [|discriminate].
    destruct (fwrite _ _ _); [|discriminate].
    intros [= <-]. split; reflexivity.
  - intros p len bytes.
    destruct (strip _ _ _) as [st|]; [|discriminate].
    destruct (fwrite _ _ _); [|discriminate].
    intros [= _ _ ->] ->. reflexivity.
  - intros w' -> -> -> ->. reflexivity.
Qed.

(** Everything fails and nothing is received: the array is still empty,
    [length] was never written and holds 7; the file opens. *)
Lemma C3_witness :
  main {| connect_result := LXI_ERROR; send_result := LXI_ERROR;
          receive_result := LXI_ERROR;
          received := [nul; nul; nul; nul; nul; nul; nul; nul];
          length_before := 7; length_written := None;
          after_c := EmptyString; fopen_succeeds := fun _ => true |}
       ["rigol_1000z_screenshot"; "192.0.2.5"; "screen.bmp"]
    = Some {| status := EXIT_SUCCESS; stdout := saved "screen.bmp";
              file := [nul; nul; nul; nul] |}.
Proof.
  apply (proj1 (proj2 (C3_transport_failure_not_reported _ _ _ _)) 2 4); reflexivity.
Defined.

(** The claim C3 as worded fails: [lxi_send] reports a failure, the
    instrument's reply is received all the same, and the run ends with
    status 0 after printing that the screenshot was saved. *)
Lemma C3_counterexample :
  let w := {| connect_result := 0; send_result := LXI_ERROR; receive_result := 0;
              received := list_ascii_of_string "#15HELLO" ++ [newline; nul; nul];
              length_before := 0; length_written := Some 9;
              after_c := String (ascii_of_nat 9) EmptyString;
              fopen_succeeds := fun _ => true |} in
  send_result w < 0
  /\ exists r,
       main w ["rigol_1000z_screenshot"; "192.0.2.5"; "screen.bmp"] = Some r
       /\ status r = EXIT_SUCCESS
       /\ stdout r = "Saved screenshot to screen.bmp" +:+ String newline EmptyString.
Proof.
  split; [reflexivity|]. eexists. split; [reflexivity|]. split; reflexivity.
Qed.

(** C7, as the code has it.  The decode step has no result that rejects a
    response and never tests its first byte: whenever the offset it
    computes lies behind the first byte, it returns the same offset, length
    and bytes whether or not the response begins with the marker. *)
Theorem C7_marker_not_checked (behind : string) (b b' : ascii) (tail : list ascii)
    (len : Z) :
  0 < digit_count behind (b :: tail) + 2 ->
  decode behind (b :: tail) len = decode behind (b' :: tail) len.
Proof.
  unfold decode, strip, digit_count. destruct tail as [|c tail]; [reflexivity|].
  change ((b :: c :: tail) !! 1%nat) with (Some c).
  change ((b' :: c :: tail) !! 1%nat) with (Some c).
  cbv beta iota.
  set (n := atoi (String c behind)) in *. intros Hn.
  change (List.length (b' :: c :: tail)) with (List.length (b :: c :: tail)).
  match goal with |- context [bool_decide ?P] => destruct (bool_decide P) end; [|reflexivity].
  cbn [response response_p length]. unfold fwrite.
  rewrite !length_insert.
  change (List.length (b' :: c :: tail)) with (List.length (b :: c :: tail)).
  match goal with |- context [bool_decide ?P] => destruct (bool_decide P) end; [|reflexivity].
  replace (Z.to_nat (0 + (n + 2))) with (S (Z.to_nat (n + 1))) by lia.
  destruct (Z.to_nat (len - (n + 2))); reflexivity.
Qed.

Lemma C7_witness :
  decode EmptyString ["H"; "E"; "L"; nul; "O"]%char 5
    = decode EmptyString ["#"; "E"; "L"; nul; "O"]%char 5.
Proof.
  apply C7_marker_not_checked. reflexivity.
Defined.

(** The claim C7 as worded fails: the five bytes the step returns for
    ["#15HELLO\n"] are decoded again without complaint, into two bytes
    (behind [c] lies the byte 9, then the byte 5, of the length). *)
Lemma C7_counterexample :
  decode (String (ascii_of_nat 9) EmptyString)
         (list_ascii_of_string "#15HELLO" ++ [newline]) 9
    = Some (3, 5, ["H"; "E"; "L"; nul; "O"]%char)
  /\ decode (String (ascii_of_nat 5) EmptyString)
            ["H"; "E"; "L"; nul; "O"]%char 5 = Some (2, 2, ["L"%char; nul]).
Proof. split; reflexivity. Qed.

(** C8.  The decode step does not depend on the length digits: two
    responses of the same size that agree at every index outside
    [2 .. n + 1], [n] being the digit at index 1, give the same offset, the
    same length and the same bytes (or both fall outside the array).  This
    is so for whatever follows [c] in memory, as long as the count [atoi]
    reads on from a digit is not below that digit (it never is, unless the
    digits read overflow an [int]). *)
Theorem C8_length_digits_not_read (behind : string) (r1 r2 : list ascii) (len : Z) :
  List.length r1 = List.length r2 ->
  (forall i : nat,
      ~ (2 <= Z.of_nat i <= digit_count EmptyString r1 + 1) -> r1 !! i = r2 !! i) ->
  (0 < digit_count EmptyString r1 ->
   digit_count EmptyString r1 <= digit_count behind r1) ->
  decode behind r1 len = decode behind r2 len.
Proof.
  intros Hlen Hagree Hcount.
  destruct (Z.eq_dec (digit_count EmptyString r1) 0) as [Hzero|Hpos].
  - replace r2 with r1; [reflexivity|].
    apply list_eq. intros i. apply Hagree. lia.
  - unfold decode, strip.
    assert (H1 : r1 !! 1%nat = r2 !! 1%nat) by (apply Hagree; lia).
    rewrite <- H1. unfold digit_count in Hagree, Hcount, Hpos.
    destruct (r1 !! 1%nat) as [c|]; [|reflexivity].
    pose proof (atoi_char_range c) as Hn.
    specialize (Hcount ltac:(lia)).
    set (d := atoi (String c EmptyString)) in *.
    set (n := atoi (String c behind)) in *.
    rewrite <- Hlen.
    match goal with |- context [bool_decide ?P] => destruct (bool_decide P) end; [|reflexivity].
    cbn [response response_p length]. unfold fwrite.
    rewrite !length_insert, <- Hlen.
    match goal with |- context [bool_decide ?P] => destruct (bool_decide P) end; [|reflexivity].
    do 2 f_equal. f_equal.
    apply list_eq. intros i. rewrite !lookup_drop.
    rewrite !list_lookup_insert, <- Hlen.
    rewrite Hagree by lia. reflexivity.
Qed.

Lemma C8_witness :
  decode (String (ascii_of_nat 9) EmptyString)
         (list_ascii_of_string "#15HELLO" ++ [newline]) 9
    = decode (String (ascii_of_nat 9) EmptyString)
             (list_ascii_of_string "#19HELLO" ++ [newline]) 9.
Proof.
  apply C8_length_digits_not_read.
  - reflexivity.
  - intros i Hi.
    destruct i as [|[|[|i]]]; [reflexivity | reflexivity | | reflexivity].
    exfalso. apply Hi. vm_compute. split; discriminate.
  - intros _. vm_compute. discriminate.
Defined.

End Decode.

(** * Further properties of [parse_options] *)

Section Exits.

Variable optstring : string.
Variable longopts : list long_option.
Variable switch : Z -> string -> option_t -> step.

(** What holds of every exit of a [switch], under an invariant of the
    record, holds of the exit of the loop. *)
Lemma option_loop_exit (P : option_t -> Prop) (Q : Z -> list chunk -> Prop) :
  (forall c a o o', P o -> switch c a o = Go o' -> P o') ->
  (forall c a o s out, P o -> switch c a o = Stop s out -> Q s out) ->
  forall fuel c g o s out,
    option_loop switch optstring longopts fuel c g o = Exited s out ->
    P o -> Q s out.
Proof.
  intros Hgo Hstop fuel.
  induction fuel as [|fuel IH]; intros c g o s out; simpl.
  - destruct (c =? -1); [discriminate|].
    destruct (switch c (optarg g) o) eqn:E; [discriminate|].
    intros [= <- <-] Ho. eauto.
  - destruct (c =? -1); [discriminate|].
    destruct (switch c (optarg g) o) as [o1|s1 out1] eqn:E.
    + destruct (getopt_long optstring longopts g) as [c1 g1].
      intros H Ho. eapply IH; eauto.
    + intros [= <- <-] Ho. eauto.
Qed.

End Exits.

Import Positional.

Lemma optind_le_argc g : (optind g <= List.length (Getopt.argv g))%nat.
Proof. unfold optind, Getopt.argv. rewrite length_app. lia. Qed.

Lemma strlen_zero s : (strlen s =? 0) = true <-> s = EmptyString.
Proof.
  unfold strlen. destruct s; simpl; split; intros H; try reflexivity; discriminate.
Qed.

(** Lines 214 to 232 depend on the vector only through the elements from
    [optind] on. *)
Lemma check_arguments_finish (argv : list string) (i : nat) (o : option_t) :
  (i <= List.length argv)%nat ->
  check_arguments argv i o = finish (drop i argv) o.
Proof.
  intros Hi. unfold check_arguments, finish.
  destruct (drop i argv) as [|a more] eqn:Hdrop.
  - assert (i = List.length argv) as ->.
    { apply (f_equal List.length) in Hdrop. rewrite length_drop in Hdrop. simpl in Hdrop. lia. }
    rewrite Nat.eqb_refl, Nat.ltb_irrefl, andb_false_r. destruct (command o); reflexivity.
  - assert (Hlook : argv !! i = Some a).
    { rewrite <- (Nat.add_0_r i), <- lookup_drop, Hdrop. reflexivity. }
    pose proof (lookup_lt_Some _ _ _ Hlook) as Hlt.
    assert (Hmore : drop (S i) argv = more).
    { rewrite (drop_S _ _ _ Hlook) in Hdrop. congruence. }
    destruct (Nat.eqb_spec i (List.length argv)) as [?|_]; [lia|].
    destruct (command o); simpl.
    + destruct (Nat.ltb_spec i (List.length argv)); [|lia].
      reflexivity.
    + rewrite Hlook. cbn [ip set_scpi_command].
      destruct (ip o) as [|c s] eqn:Hip.
      * reflexivity.
      * replace (strlen (String c s) =? 0) with false
          by (symmetry; apply not_true_iff_false; rewrite strlen_zero; discriminate).
        destruct more as [|b more].
        -- apply (f_equal List.length) in Hmore. rewrite length_drop in Hmore. simpl in Hmore.
           destruct (Nat.ltb_spec (S i) (List.length argv)); [lia|]. reflexivity.
        -- assert (S i < List.length argv)%nat.
           { apply (f_equal List.length) in Hmore. rewrite length_drop in Hmore.
             simpl in Hmore. lia. }
           destruct (Nat.ltb_spec (S i) (List.length argv)); [|lia].
           unfold unknown_arguments. rewrite Hmore. reflexivity.
Qed.

Lemma parse_options_finish argv0 argv1 args g o :
  parse_flags (argv0 :: argv1 :: args) = Finished g o ->
  parse_options (argv0 :: argv1 :: args)
    = finish (positionals (argv0 :: argv1 :: args)) o.
Proof.
  intros H. unfold parse_options, positionals. rewrite H.
  apply check_arguments_finish, optind_le_argc.
Qed.

(** ** How [parse_options] can end *)

Lemma hand_back_return o o' :
  hand_back o = Return o' ->
  o' = o /\ terminated (ip o) = true /\ terminated (scpi_command o) = true.
Proof.
  unfold hand_back.
  destruct (terminated (ip o)), (terminated (scpi_command o)); try discriminate.
  intros [= <-]. auto.
Qed.

Lemma hand_back_exit o s out : hand_back o <> Exit s out.
Proof. unfold hand_back. destruct (_ && _); discriminate. Qed.




Lemma finish_exit pos o s out : finish pos o = Exit s out -> s = EXIT_FAILURE.
Proof.
  unfold finish.
  destruct (command o), pos as [|a more]; intros H;
    try (exfalso; exact (hand_back_exit _ _ _ H));
    try (injection H as <- _; reflexivity).
  destruct (ip o), more; try (exfalso; exact (hand_back_exit _ _ _ H));
    injection H as <- _; reflexivity.
Qed.

(** X2.  Every [exit] of [parse_options] has the failure status, except
    the exits that print the help or the version: these have status 0, and
    they occur only when the first argument is neither [discover] nor
    [scpi].  A [discover] or [scpi] command line never ends in a successful
    exit, and the help printed shows the default timeout. *)
Theorem exit_status_and_output (argv0 : string) (args : list string)
    (s : Z) (out : list chunk) :
  parse_options (argv0 :: args) = Exit s out ->
  s = EXIT_FAILURE
  \/ (s = EXIT_SUCCESS
      /\ (out = print_version \/ out = print_help option0 argv0)
      /\ args !! 0%nat <> Some "discover" /\ args !! 0%nat <> Some "scpi").
Proof.
  destruct args as [|argv1 args].
  - intros [= <- <-]. right. repeat split; auto; discriminate.
  - destruct (parse_flags (argv0 :: argv1 :: args)) as [g o1| |] eqn:Hflags.
    + rewrite (parse_options_finish _ _ _ _ _ Hflags).
      intros H. left. eapply finish_exit; eauto.
    + unfold parse_options. rewrite Hflags. intros [= <- <-].
      revert Hflags. unfold parse_flags.
      destruct (streq argv1 "discover") eqn:Hd; [|destruct (streq argv1 "scpi") eqn:Hs];
        match goal with
        | |- context [getopt_long ?os ?lo ?g] => destruct (getopt_long os lo g) as [c g1]
        end; intros H.
      * left.
        eapply (option_loop_exit _ _ _ (fun _ => True) (fun s _ => s = EXIT_FAILURE))
          in H; auto.
        intros ? ? ? ? ? _. unfold discover_switch.
        repeat match goal with |- context [if ?b then _ else _] => destruct b end;
          try discriminate; intros [= <- _]; reflexivity.
      * left.
        eapply (option_loop_exit _ _ _ (fun _ => True) (fun s _ => s = EXIT_FAILURE))
          in H; auto.
        intros ? ? ? ? ? _. unfold scpi_switch.
        repeat match goal with |- context [if ?b then _ else _] => destruct b end;
          try discriminate; intros [= <- _]; reflexivity.
      * eapply (option_loop_exit _ _ _ (fun o => o = option0)
                  (fun s out => s = EXIT_FAILURE
                     \/ (s = EXIT_SUCCESS
                         /\ (out = print_version \/ out = print_help option0 argv0))))
          in H; auto.
        -- destruct H as [H|[H1 H2]]; [left; exact H|right].
           repeat split; auto; simpl; intros [= ->]; discriminate.
        -- intros ? ? ? ? ->. unfold global_switch.
           repeat match goal with |- context [if ?b then _ else _] => destruct b end;
             try discriminate. intros [= <-]. reflexivity.
        -- intros ? ? ? ? ? ->. unfold global_switch.
           repeat match goal with |- context [if ?b then _ else _] => destruct b end;
             try discriminate; intros [= <- <-]; auto.
    + unfold parse_options. rewrite Hflags. discriminate.
Qed.

Lemma exit_status_and_output_witness :
  EXIT_SUCCESS = EXIT_FAILURE
  \/ (EXIT_SUCCESS = EXIT_SUCCESS
      /\ (print_help option0 "lxi" = print_version
          \/ print_help option0 "lxi" = print_help option0 "lxi")
      /\ ["--help"] !! 0%nat <> Some "discover" /\ ["--help"] !! 0%nat <> Some "scpi").
Proof.
  apply (exit_status_and_output "lxi" ["--help"]). reflexivity.
Defined.

(** ** The three branches *)

Lemma discover_loop_frame fuel c g o g' o' :
  option_loop discover_switch "t:" discover_options fuel c g o = Finished g' o' ->
  o' = set_timeout (timeout o') o.
Proof.
  intros H.
  apply (option_loop_keeps _ _ _ (fun o1 => o1 = set_timeout (timeout o1) o)) in H.
  - exact H.
  - intros c0 a o1 o2. unfold discover_switch.
    repeat match goal with |- context [if ?b then _ else _] => destruct b end;
      try discriminate; intros [= <-] ->; reflexivity.
  - destruct o; reflexivity.
Qed.

(** X3.  A [discover] command line that [parse_options] accepts changes
    nothing but the command and the timeout: the record returned is the
    initial one with the command [DISCOVER] and some timeout. *)
Theorem discover_sets_only_timeout (argv0 : string) (args : list string)
    (o : option_t) :
  parse_options (argv0 :: "discover" :: args) = Return o ->
  o = set_timeout (timeout o) (set_command DISCOVER option0).
Proof.
  destruct (parse_flags (argv0 :: "discover" :: args)) as [g o1| |] eqn:Hflags.
  - rewrite (parse_options_finish _ _ _ _ _ Hflags).
    revert Hflags. unfold parse_flags. simpl streq. cbv iota.
    destruct (getopt_long _ discover_options _) as [c g1]. intros Hloop.
    apply discover_loop_frame in Hloop.
    assert (Hcmd : command o1 = DISCOVER) by (rewrite Hloop; reflexivity).
    unfold finish. rewrite Hcmd.
    destruct (positionals _); [|discriminate].
    intros H. apply hand_back_return in H as (-> & _). exact Hloop.
  - unfold parse_options. rewrite Hflags. discriminate.
  - unfold parse_options. rewrite Hflags. discriminate.
Qed.

Lemma discover_sets_only_timeout_witness :
  set_timeout 5 (set_command DISCOVER option0)
    = set_timeout (timeout (set_timeout 5 (set_command DISCOVER option0)))
        (set_command DISCOVER option0).
Proof.
  apply (discover_sets_only_timeout "lxi" ["--timeout"; "5"]). reflexivity.
Defined.

(** X4.  A [discover] command line with any positional argument ends in
    the failure exit that lists all the positionals after "Unknown
    arguments: ", each followed by a space. *)
Theorem discover_rejects_positionals (argv0 : string) (args : list string) :
  accepted (argv0 :: "discover" :: args) ->
  positionals (argv0 :: "discover" :: args) <> [] ->
  parse_options (argv0 :: "discover" :: args)
    = Exit EXIT_FAILURE (unknown_arguments (positionals (argv0 :: "discover" :: args))).
Proof.
  intros [g [o Hflags]] Hpos.
  rewrite (parse_options_finish _ _ _ _ _ Hflags).
  revert Hflags. unfold parse_flags. simpl streq. cbv iota.
  destruct (getopt_long _ discover_options _) as [c g1]. intros Hloop.
  apply discover_loop_frame in Hloop.
  unfold finish. rewrite Hloop. cbn [command set_timeout].
  destruct (positionals _); [congruence|reflexivity].
Qed.

Lemma discover_rejects_positionals_witness :
  parse_options ["lxi"; "discover"; "now"; "-t"; "3"; "please"]
    = Exit EXIT_FAILURE (unknown_arguments ["now"; "please"]).
Proof.
  apply (discover_rejects_positionals "lxi" ["now"; "-t"; "3"; "please"]).
  - eexists _, _. reflexivity.
  - discriminate.
Defined.

(** X5.  An [scpi] command line with an IP address and more than one
    positional argument takes the first positional as the SCPI command and
    ends in the failure exit that lists the others as unknown arguments. *)
Theorem scpi_rejects_second_positional (argv0 : string) (args : list string)
    (g : getopt_data) (o : option_t) (a b : string) (more : list string) :
  parse_flags (argv0 :: "scpi" :: args) = Finished g o ->
  ip o <> EmptyString ->
  positionals (argv0 :: "scpi" :: args) = a :: b :: more ->
  parse_options (argv0 :: "scpi" :: args)
    = Exit EXIT_FAILURE (unknown_arguments (b :: more)).
Proof.
  intros Hflags Hip Hpos.
  rewrite (parse_options_finish _ _ _ _ _ Hflags), Hpos.
  pose proof (scpi_loop_flags _ _ _ _ Hflags) as Ho.
  assert (Hcmd : command o = SCPI) by (rewrite Ho, flags_keep_command; reflexivity).
  unfold finish. rewrite Hcmd. destruct (ip o); [congruence|reflexivity].
Qed.

Lemma scpi_rejects_second_positional_witness :
  parse_options ["lxi"; "scpi"; "-i"; "192.0.2.5"; "*IDN?"; "*RST"]
    = Exit EXIT_FAILURE (unknown_arguments ["*RST"]).
Proof.
  eapply (scpi_rejects_second_positional "lxi" ["-i"; "192.0.2.5"; "*IDN?"; "*RST"]).
  - reflexivity.
  - discriminate.
  - reflexivity.
Defined.

(** X6.  When the first argument is neither [discover] nor [scpi], the
    call ends in one of five ways only: the version or the help is printed
    and the process exits with status 0; an unknown flag ends it with the
    failure status and no output; a positional argument ends it with the
    "No IP address" diagnostic (the default command being [SCPI]); or, with
    neither options nor positionals left, it returns the initial record
    unchanged.  Leftover arguments are never listed in this branch. *)
Theorem no_command_outcomes (argv0 argv1 : string) (args : list string) :
  argv1 <> "discover" -> argv1 <> "scpi" ->
  let r := parse_options (argv0 :: argv1 :: args) in
  r = Exit EXIT_SUCCESS print_version
  \/ r = Exit EXIT_SUCCESS (print_help option0 argv0)
  \/ r = Exit EXIT_FAILURE []
  \/ r = Exit EXIT_FAILURE no_ip_address
  \/ r = Return option0.
Proof.
  intros Hd Hs r. subst r.
  pose proof (parse_flags_ends argv0 argv1 args) as Hends.
  destruct (parse_flags (argv0 :: argv1 :: args)) as [g o| |] eqn:Hflags;
    [| |congruence].
  - rewrite (parse_options_finish _ _ _ _ _ Hflags).
    revert Hflags. unfold parse_flags, streq.
    rewrite (proj2 (String.eqb_neq _ _) Hd), (proj2 (String.eqb_neq _ _) Hs).
    destruct (getopt_long _ global_options _) as [c g1]. intros Hloop.
    apply (option_loop_keeps _ _ _ (fun o => o = option0)) in Hloop; auto.
    + subst o. unfold finish. cbn [command ip option0].
      destruct (positionals _); auto 10.
    + intros ? ? ? ?. unfold global_switch.
      repeat match goal with |- context [if ?b then _ else _] => destruct b end;
        try discriminate. intros [= <-] ->. reflexivity.
  - unfold parse_options. rewrite Hflags.
    revert Hflags. unfold parse_flags, streq.
    rewrite (proj2 (String.eqb_neq _ _) Hd), (proj2 (String.eqb_neq _ _) Hs).
    destruct (getopt_long _ global_options _) as [c g1]. intros Hloop.
    eapply (option_loop_exit _ _ _ (fun o => o = option0)
              (fun s out => Exit s out = Exit EXIT_SUCCESS print_version
                 \/ Exit s out = Exit EXIT_SUCCESS (print_help option0 argv0)
                 \/ Exit s out = Exit EXIT_FAILURE []))
      in Hloop; auto.
    + destruct Hloop as [H|[H|H]]; auto 10.
    + intros ? ? ? ? ->. unfold global_switch.
      repeat match goal with |- context [if ?b then _ else _] => destruct b end;
        try discriminate. intros [= <-]. reflexivity.
    + intros ? ? ? ? ? ->. unfold global_switch.
      repeat match goal with |- context [if ?b then _ else _] => destruct b end;
        try discriminate; intros [= <- <-]; auto.
Qed.

Lemma no_command_outcomes_witness :
  parse_options ["lxi"; "measure"] = Exit EXIT_FAILURE no_ip_address.
Proof.
  destruct (no_command_outcomes "lxi" "measure" []) as [H|[H|[H|[H|H]]]];
    try discriminate; exact H.
Defined.

(** X7.  The command of the record returned is decided by the first
    argument alone: [DISCOVER] for [discover], [SCPI] otherwise. *)
Theorem command_follows_first_argument (argv0 argv1 : string) (args : list string)
    (o : option_t) :
  parse_options (argv0 :: argv1 :: args) = Return o ->
  command o = if String.eqb argv1 "discover" then DISCOVER else SCPI.
Proof.
  destruct (parse_flags (argv0 :: argv1 :: args)) as [g o1| |] eqn:Hflags.
  - rewrite (parse_options_finish _ _ _ _ _ Hflags). intros Hfin.
    assert (Hcmd : command o = command o1).
    { revert Hfin. unfold finish.
      destruct (command o1) eqn:E; destruct (positionals _) as [|a more];
        try discriminate;
        try (intros H; apply hand_back_return in H as (-> & _); exact E).
      destruct (ip o1), more; try discriminate.
      intros H. apply hand_back_return in H as (-> & _). exact E. }
    rewrite Hcmd. clear Hfin Hcmd. revert Hflags. unfold parse_flags, streq.
    destruct (String.eqb argv1 "discover"); [|destruct (String.eqb argv1 "scpi")];
      match goal with
      | |- context [getopt_long ?os ?lo ?g] => destruct (getopt_long os lo g) as [c g1]
      end; intros H.
    + apply (option_loop_keeps _ _ _ (fun o => command o = DISCOVER)) in H; auto.
      intros ? ? ? ? Hs. apply discover_switch_frame in Hs as [_ ->]. auto.
    + apply (option_loop_keeps _ _ _ (fun o => command o = SCPI)) in H; auto.
      intros ? ? ? ? Hs. apply scpi_switch_frame in Hs as [_ ->]. auto.
    + apply (option_loop_keeps _ _ _ (fun o => command o = SCPI)) in H; auto.
      intros ? ? ? ? Hs. apply global_switch_frame in Hs as [_ ->]. auto.
  - unfold parse_options. rewrite Hflags. discriminate.
  - unfold parse_options. rewrite Hflags. discriminate.
Qed.

Lemma command_follows_first_argument_witness :
  command (set_timeout 9 (set_command DISCOVER option0)) = DISCOVER.
Proof.
  apply (command_follows_first_argument "lxi" "discover" ["-t"; "9"]). reflexivity.
Defined.

(** ** What each flag of the [scpi] command does *)

Section Flag.

Variable get : option_t -> bool.
Variable x : ascii.
Hypothesis step_sets :
  forall o c a, get (apply_option scpi_switch o (c, a)) = get o || returned c x.

(** A boolean that only its own flag sets is set after the loop exactly
    when it was set before or the flag was supplied. *)
Lemma flags_set_boolean flags : forall o,
  get (fold_left (apply_option scpi_switch) flags o) = true
  <-> get o = true \/ supplies x flags.
Proof.
  induction flags as [|[c a] flags IH]; intros o; simpl.
  - split; [auto|]. intros [H|[arg []]]. exact H.
  - rewrite IH, step_sets, orb_true_iff. unfold returned. rewrite Z.eqb_eq.
    split.
    + intros [[H| ->]|[arg H]]; [auto| |].
      * right. exists a. left. reflexivity.
      * right. exists arg. right. exact H.
    + intros [H|[arg [H|H]]]; [auto| |].
      * injection H as -> _. auto.
      * right. exists arg. exact H.
Qed.

End Flag.

Section LastWins.

Context {A : Type}.
Variable get : option_t -> A.
Variable writes : Z * string -> bool.
Variable value : string -> A.
Hypothesis step_writes :
  forall o f, writes f = true -> get (apply_option scpi_switch o f) = value (snd f).
Hypothesis step_keeps :
  forall o f, writes f = false -> get (apply_option scpi_switch o f) = get o.

Lemma flags_keep_field flags : forall o,
  forallb (fun f => negb (writes f)) flags = true ->
  get (fold_left (apply_option scpi_switch) flags o) = get o.
Proof.
  induction flags as [|f flags IH]; intros o H; [reflexivity|].
  simpl in H. apply andb_true_iff in H as [Hf H].
  simpl. rewrite IH by exact H. apply step_keeps.
  destruct (writes f); [discriminate|reflexivity].
Qed.

(** A field written by a flag holds, after the loop, what the last such
    flag gave it. *)
Lemma flags_last_wins before f after o :
  writes f = true ->
  forallb (fun f => negb (writes f)) after = true ->
  get (fold_left (apply_option scpi_switch) (before ++ f :: after) o) = value (snd f).
Proof.
  intros Hf Hafter. rewrite fold_left_app. simpl.
  rewrite flags_keep_field by exact Hafter. apply step_writes. exact Hf.
Qed.

End LastWins.

Ltac boolean_step :=
  intros; switch_cases; rewrite ?orb_false_r, ?orb_true_r; reflexivity.

Lemma step_dump_hex o c a :
  dump_hex (apply_option scpi_switch o (c, a)) = dump_hex o || returned c "x".
Proof. boolean_step. Qed.

Lemma step_dump_file o c a :
  dump_file (apply_option scpi_switch o (c, a)) = dump_file o || returned c "f".
Proof. boolean_step. Qed.

Lemma step_interactive o c a :
  interactive (apply_option scpi_switch o (c, a)) = interactive o || returned c "a".
Proof. boolean_step. Qed.

Lemma step_run_script o c a :
  run_script (apply_option scpi_switch o (c, a)) = run_script o || returned c "r".
Proof. boolean_step. Qed.

Lemma flag_from_default get x flags :
  (forall o c a, get (apply_option scpi_switch o (c, a)) = get o || returned c x) ->
  get (set_command SCPI option0) = false ->
  get (fold_left (apply_option scpi_switch) flags (set_command SCPI option0)) = true
  <-> supplies x flags.
Proof.
  intros Hstep H0. rewrite (flags_set_boolean get x Hstep), H0.
  split; [intros [H|H]; [discriminate H|exact H] | auto].
Qed.

(** X8.  After the option loop of an [scpi] command line each of the four
    booleans is true exactly when its own flag was supplied: [dump_hex] for
    [x], [dump_file] for [f], [interactive] for [a], [run_script] for [r].
    No flag clears a boolean or sets another flag's. *)
Theorem booleans_follow_flags (argv0 : string) (args : list string)
    (g : getopt_data) (o : option_t) :
  parse_flags (argv0 :: "scpi" :: args) = Finished g o ->
  let flags := scpi_flags (argv0 :: "scpi" :: args) in
  (dump_hex o = true <-> supplies "x" flags)
  /\ (dump_file o = true <-> supplies "f" flags)
  /\ (interactive o = true <-> supplies "a" flags)
  /\ (run_script o = true <-> supplies "r" flags).
Proof.
  intros Hflags flags. rewrite (scpi_loop_flags _ _ _ _ Hflags). fold flags.
  split; [|split; [|split]].
  - apply flag_from_default; [apply step_dump_hex|reflexivity].
  - apply flag_from_default; [apply step_dump_file|reflexivity].
  - apply flag_from_default; [apply step_interactive|reflexivity].
  - apply flag_from_default; [apply step_run_script|reflexivity].
Qed.

Lemma booleans_follow_flags_witness :
  let o := set_interactive true (set_dump_hex true (set_ip "192.0.2.5" option0)) in
  let flags := scpi_flags ["lxi"; "scpi"; "-x"; "--ip=192.0.2.5"; "--interactive"] in
  (dump_hex o = true <-> supplies "x" flags)
  /\ (dump_file o = true <-> supplies "f" flags)
  /\ (interactive o = true <-> supplies "a" flags)
  /\ (run_script o = true <-> supplies "r" flags).
Proof.
  eapply (booleans_follow_flags "lxi" ["-x"; "--ip=192.0.2.5"; "--interactive"]).
  reflexivity.
Defined.

Lemma step_timeout_writes o f :
  writes_timeout f = true -> timeout (apply_option scpi_switch o f) = atoi (snd f).
Proof.
  destruct f as [c a]. unfold writes_timeout.
  switch_cases; intros; try reflexivity; discriminate.
Qed.

Lemma step_timeout_keeps o f :
  writes_timeout f = false -> timeout (apply_option scpi_switch o f) = timeout o.
Proof.
  destruct f as [c a]. unfold writes_timeout.
  switch_cases; intros; try reflexivity; discriminate.
Qed.

Lemma step_ip_writes o f :
  writes_ip f = true -> ip (apply_option scpi_switch o f) = strncpy (snd f) 500.
Proof.
  destruct f as [c a]. unfold writes_ip.
  switch_cases; intros; try reflexivity; discriminate.
Qed.

Lemma step_ip_keeps o f :
  writes_ip f = false -> ip (apply_option scpi_switch o f) = ip o.
Proof.
  destruct f as [c a]. unfold writes_ip.
  switch_cases; intros; try reflexivity; discriminate.
Qed.

(** X9.  The timeout of an [scpi] command line is the value [atoi] gives
    the argument of the last timeout flag supplied; with no timeout flag it
    is the default, 1. *)
Theorem timeout_last_flag_wins (argv0 : string) (args : list string)
    (g : getopt_data) (o : option_t) :
  parse_flags (argv0 :: "scpi" :: args) = Finished g o ->
  let flags := scpi_flags (argv0 :: "scpi" :: args) in
  (forallb (fun f => negb (writes_timeout f)) flags = true -> timeout o = 1)
  /\ (forall before f after,
        flags = before ++ f :: after ->
        writes_timeout f = true ->
        forallb (fun f => negb (writes_timeout f)) after = true ->
        timeout o = atoi (snd f)).
Proof.
  intros Hflags flags. rewrite (scpi_loop_flags _ _ _ _ Hflags). fold flags. split.
  - intros Hnone.
    rewrite (flags_keep_field timeout writes_timeout step_timeout_keeps) by exact Hnone.
    reflexivity.
  - intros before f after -> Hf Hafter.
    apply (flags_last_wins timeout writes_timeout atoi
             step_timeout_writes step_timeout_keeps); assumption.
Qed.

Lemma timeout_last_flag_wins_witness :
  timeout (set_dump_hex true (set_timeout 7 option0)) = atoi "7".
Proof.
  destruct (timeout_last_flag_wins "lxi" ["-t"; "3"; "--timeout=7"; "--dump-hex"]
              _ _ eq_refl) as [_ H].
  apply (H [(code "t", "3")] (code "t", "7") [(code "x", EmptyString)]); reflexivity.
Defined.

Lemma strncpy_length s : forall n, (String.length (strncpy s n) <= n)%nat.
Proof.
  induction s as [|c s IH]; intros [|n]; simpl; try lia.
  specialize (IH n). lia.
Qed.

Lemma strncpy_short s : forall n, (String.length s <= n)%nat -> strncpy s n = s.
Proof.
  induction s as [|c s IH]; intros [|n]; simpl; intros H; try reflexivity; try lia.
  rewrite IH by lia. reflexivity.
Qed.

(** X10.  The IP address of an [scpi] command line is the argument of
    the last IP flag supplied, stored whole, whenever that argument has
    fewer than 500 characters (so that [strncpy] stores its terminator). *)
Theorem ip_last_flag_wins (argv0 : string) (args : list string)
    (g : getopt_data) (o : option_t) (before after : list (Z * string))
    (f : Z * string) :
  parse_flags (argv0 :: "scpi" :: args) = Finished g o ->
  scpi_flags (argv0 :: "scpi" :: args) = before ++ f :: after ->
  writes_ip f = true ->
  forallb (fun f => negb (writes_ip f)) after = true ->
  (String.length (snd f) < 500)%nat ->
  ip o = snd f.
Proof.
  intros Hflags Hsplit Hf Hafter Hshort.
  rewrite (scpi_loop_flags _ _ _ _ Hflags), Hsplit.
  rewrite (flags_last_wins ip writes_ip (fun a => strncpy a 500)
             step_ip_writes step_ip_keeps) by assumption.
  apply strncpy_short. lia.
Qed.

Lemma ip_last_flag_wins_witness :
  ip (set_ip "198.51.100.7" option0) = "198.51.100.7".
Proof.
  eapply (ip_last_flag_wins "lxi" ["--ip"; "192.0.2.5"; "--ip"; "198.51.100.7"]
            _ _ [(code "i", "192.0.2.5")] [] (code "i", "198.51.100.7"));
    try reflexivity.
  simpl. lia.
Defined.

(** ** Invariants of the record *)

(** A property of the record that holds of the three initial records and
    is kept by every option of the three loops holds when the loop ends. *)
Lemma parse_flags_invariant (P : option_t -> Prop) argv g o :
  P option0 -> P (set_command DISCOVER option0) -> P (set_command SCPI option0) ->
  (forall c a o o', discover_switch c a o = Go o' -> P o -> P o') ->
  (forall c a o o', scpi_switch c a o = Go o' -> P o -> P o') ->
  parse_flags argv = Finished g o -> P o.
Proof.
  intros H0 Hd Hs Kd Ks.
  destruct argv as [|argv0 [|argv1 args]]; try discriminate.
  unfold parse_flags.
  destruct (streq argv1 "discover"); [|destruct (streq argv1 "scpi")];
    match goal with
    | |- context [getopt_long ?os ?lo ?g] => destruct (getopt_long os lo g) as [c g1]
    end; intros H;
    eapply (option_loop_keeps _ _ _ P) in H; eauto.
  intros ? ? ? ?. unfold global_switch.
  repeat match goal with |- context [if ?b then _ else _] => destruct b end;
    try discriminate. intros [= <-]. auto.
Qed.

Lemma finish_return pos o o' :
  finish pos o = Return o' ->
  (o' = o \/ exists a, o' = set_scpi_command (strncpy a 500) o)
  /\ terminated (ip o') = true /\ terminated (scpi_command o') = true.
Proof.
  unfold finish.
  destruct (command o); destruct pos as [|a more]; try discriminate;
    try (intros H; apply hand_back_return in H as (-> & ? & ?); auto).
  destruct (ip o), more; try discriminate.
  intros H. apply hand_back_return in H as (-> & ? & ?). eauto.
Qed.

Lemma parse_options_return argv o' :
  parse_options argv = Return o' ->
  exists g o, parse_flags argv = Finished g o
              /\ (o' = o \/ exists a, o' = set_scpi_command (strncpy a 500) o).
Proof.
  destruct argv as [|argv0 [|argv1 args]]; try discriminate.
  destruct (parse_flags (argv0 :: argv1 :: args)) as [g o| |] eqn:Hflags.
  - rewrite (parse_options_finish _ _ _ _ _ Hflags). intros H.
    exists g, o. split; [reflexivity|]. eapply finish_return; eauto.
  - unfold parse_options. rewrite Hflags. discriminate.
  - unfold parse_options. rewrite Hflags. discriminate.
Qed.

(** X12.  The [filename] field differs from its empty default only in a
    record that asks for a file dump or a script run: when [dump_file] and
    [run_script] are both false, [filename] is empty. *)
Theorem filename_needs_a_file_flag (argv : list string) (o : option_t) :
  parse_options argv = Return o ->
  dump_file o = false -> run_script o = false -> filename o = EmptyString.
Proof.
  intros H. apply parse_options_return in H as [g [o1 [Hflags Ho]]].
  assert (Hinv : dump_file o1 = false -> run_script o1 = false
                 -> filename o1 = EmptyString).
  { revert Hflags.
    apply (parse_flags_invariant
             (fun o => dump_file o = false -> run_script o = false
                       -> filename o = EmptyString)); auto.
    - intros ? ? ? ?. unfold discover_switch.
      repeat match goal with |- context [if ?b then _ else _] => destruct b end;
        try discriminate; intros [= <-]; auto.
    - intros ? ? ? ?. unfold scpi_switch.
      repeat match goal with |- context [if ?b then _ else _] => destruct b end;
        try discriminate; intros [= <-]; cbn; intros; auto; congruence. }
  destruct Ho as [->|[a ->]]; exact Hinv.
Qed.

Lemma filename_needs_a_file_flag_witness :
  filename (set_dump_hex true option0) = EmptyString.
Proof.
  apply (filename_needs_a_file_flag ["lxi"; "scpi"; "-x"]); reflexivity.
Defined.

(** X13.  Inside the loop of the [scpi] branch, that is once a first flag
    has been handled, an element that starts a group of short options with
    any character other than [t] ends the process with the failure status
    and no output: of the short flags only [-t] is accepted there. *)
Theorem loop_accepts_only_short_t (fuel : nat) (c0 : Z) (g : getopt_data)
    (o o1 : option_t) (c : ascii) (grp : string) (l : list string) :
  c0 <> -1 ->
  scpi_switch c0 (optarg g) o = Go o1 ->
  nextchar g = EmptyString ->
  rest g = String "-" (String c grp) :: l ->
  c <> "-"%char -> c <> "t"%char ->
  option_loop scpi_switch "t:" scpi_options (S fuel) c0 g o = Exited EXIT_FAILURE [].
Proof.
  intros Hc0 Hsw Hnext Hrest Hdash Ht. simpl.
  rewrite (proj2 (Z.eqb_neq _ _) Hc0), Hsw.
  unfold getopt_long. rewrite Hnext, Hrest. simpl.
  rewrite (proj2 (Ascii.eqb_neq _ _) Hdash).
  unfold short_option, short_kind. simpl.
  rewrite (proj2 (Ascii.eqb_neq _ _) Ht).
  destruct (Ascii.eqb c ":") eqn:Hcolon; simpl.
  - destruct fuel; reflexivity.
  - destruct (Ascii.eqb c ";"); destruct fuel; reflexivity.
Qed.

Lemma loop_accepts_only_short_t_witness :
  let (c, g) := getopt_long "i:t:xf:ar:" scpi_options
                  (getopt_start 2 ["lxi"; "scpi"; "-x"; "-a"]) in
  option_loop scpi_switch "t:" scpi_options (S (rank g)) c g (set_command SCPI option0)
    = Exited EXIT_FAILURE [].
Proof.
  apply (loop_accepts_only_short_t 3 (code "x")
           {| scanned := ["lxi"; "scpi"; "-x"]; nonopts := []; nextchar := EmptyString;
              rest := ["-a"]; optarg := EmptyString |}
           (set_command SCPI option0) (set_dump_hex true option0) "a" EmptyString []);
    try reflexivity; discriminate.
Defined.

(** * Further properties of the screenshot client *)

Section DecodeMore.
Import Screenshot.

(** X14.  The decode step is defined exactly when the array has the byte
    at index 1, the offset [n + 2] is not negative, the length covers the
    header and the terminator ([n + 3 <= length]), the cell written by line
    70, at index [length - (n + 2)], lies inside the array, and so do the
    bytes handed to [fwrite] ([length <= size + 1]); [n] is the count
    [atoi] reads at [c].  In particular a response shorter than its header
    plus one byte, or a negative count below -2, has no defined result. *)
Theorem decode_defined (behind : string) (r : list ascii) (len : Z) :
  is_Some (decode behind r len)
  <-> (2 <= List.length r)%nat
      /\ 0 <= digit_count behind r + 2
      /\ digit_count behind r + 3 <= len <= Z.of_nat (List.length r) + 1
      /\ len - (digit_count behind r + 2) < Z.of_nat (List.length r).
Proof.
  unfold decode, strip, digit_count.
  destruct (r !! 1%nat) as [c|] eqn:Hc.
  - apply lookup_lt_Some in Hc.
    set (n := atoi (String c behind)) in *.
    case_bool_decide as H1.
    + cbn [response response_p length]. unfold fwrite.
      case_bool_decide as H2; rewrite length_insert in H2.
      * split; [intros _; lia | intros _; eexists; reflexivity].
      * split; [intros [x Hx]; discriminate | intros H; exfalso; lia].
    + split; [intros [x Hx]; discriminate | intros H; exfalso; lia].
  - apply lookup_ge_None in Hc.
    split; [intros [x Hx]; discriminate | intros H; exfalso; lia].
Qed.

(** X15.  A defined decode step returns the offset [n + 2], [n] being the
    count [atoi] reads at [c], which is not negative; the length
    [length - (n + 2) - 1], which is not negative; and exactly that many
    bytes.  When [c] is a digit that no digit follows in memory, the offset
    is between 2 and 11. *)
Theorem decode_offset_and_length (behind : string) (r : list ascii) (len p l : Z)
    (bytes : list ascii) :
  decode behind r len = Some (p, l, bytes) ->
  p = digit_count behind r + 2 /\ 0 <= p
  /\ l = len - p - 1 /\ 0 <= l
  /\ Z.of_nat (List.length bytes) = l
  /\ (forall c, r !! 1%nat = Some c -> isdigit c = true -> no_digit_follows behind ->
      2 <= p <= 11).
Proof.
  intros H. apply decode_inv in H as (c & Hc & -> & Hp & -> & Hl & Hlen & Hcell & ->).
  unfold digit_count. rewrite Hc.
  split; [reflexivity|]. split; [lia|]. split; [reflexivity|]. split; [lia|]. split.
  - rewrite length_take, length_drop, length_insert. lia.
  - intros c' [= <-] Hdigit Hbehind.
    rewrite (atoi_digit_alone _ _ Hdigit Hbehind). pose proof (atoi_char_range c). lia.
Qed.

Lemma decode_offset_and_length_witness :
  3 = digit_count (String (ascii_of_nat 9) EmptyString)
        (list_ascii_of_string "#15HELLO" ++ [newline]) + 2
  /\ 0 <= 3
  /\ 5 = 9 - 3 - 1 /\ 0 <= 5
  /\ Z.of_nat (List.length ["H"; "E"; "L"; nul; "O"]%char) = 5
  /\ (forall c, (list_ascii_of_string "#15HELLO" ++ [newline]) !! 1%nat = Some c ->
      isdigit c = true -> no_digit_follows (String (ascii_of_nat 9) EmptyString) ->
      2 <= 3 <= 11).
Proof.
  apply (decode_offset_and_length (String (ascii_of_nat 9) EmptyString)
           (list_ascii_of_string "#15HELLO" ++ [newline]) 9).
  reflexivity.
Defined.

(** X16.  Every byte the decode step returns is the byte of the response
    at the same place behind the header, except the one at index
    [length - (n + 2)] of the response, which is returned as NUL.  So at
    most one byte returned differs from the response.  This holds for
    whatever follows [c] in memory. *)
Theorem decode_bytes (behind : string) (r : list ascii) (len p l : Z)
    (bytes : list ascii) (i : nat) :
  decode behind r len = Some (p, l, bytes) ->
  (i < List.length bytes)%nat ->
  bytes !! i
    = if decide (p + Z.of_nat i = len - p) then Some nul
      else r !! (Z.to_nat p + i)%nat.
Proof.
  intros H Hi. apply decode_inv in H as (c & Hc & Hp & Hp0 & -> & Hl & Hlen & Hcell & ->).
  rewrite length_take, length_drop, length_insert in Hi.
  rewrite lookup_take_lt by lia. rewrite lookup_drop, list_lookup_insert.
  destruct (decide (p + Z.of_nat i = len - p)) as [Heq|Hne].
  - rewrite decide_True by lia. reflexivity.
  - rewrite decide_False by lia. reflexivity.
Qed.

Lemma decode_bytes_witness :
  ["H"; "E"; "L"; nul; "O"]%char !! 3%nat
    = if decide (3 + Z.of_nat 3 = 9 - 3) then Some nul
      else (list_ascii_of_string "#15HELLO" ++ [newline]) !! (Z.to_nat 3 + 3)%nat.
Proof.
  apply (decode_bytes (String (ascii_of_nat 9) EmptyString)
           (list_ascii_of_string "#15HELLO" ++ [newline]) 9 3 5).
  - reflexivity.
  - simpl. lia.
Defined.

(** X17.  The header strip keeps the size of the array and changes at
    most one of its cells, the one at index [length - (n + 2)], [n] being
    the count [atoi] reads at [c].  The terminator, the last byte received,
    at index [length - 1], is left as it was unless that count is -1. *)
Theorem strip_changes_one_cell (behind : string) (r : list ascii) (len : Z)
    (st : stripped) :
  strip behind r len = Some st ->
  List.length (response st) = List.length r
  /\ (forall i : nat,
        Z.of_nat i <> len - (digit_count behind r + 2) -> response st !! i = r !! i)
  /\ (forall i : nat,
        Z.of_nat i = len - 1 -> digit_count behind r <> -1 ->
        response st !! i = r !! i).
Proof.
  unfold strip, digit_count. destruct (r !! 1%nat) as [c|]; [|discriminate].
  set (n := atoi (String c behind)) in *.
  case_bool_decide; [|discriminate]. intros [= <-]. cbn [response].
  split; [apply length_insert|]. split.
  - intros i Hi. apply list_lookup_insert_ne. lia.
  - intros i Hi Hn. apply list_lookup_insert_ne. lia.
Qed.

Lemma strip_changes_one_cell_witness :
  exists st,
    strip (String (ascii_of_nat 9) EmptyString)
          (list_ascii_of_string "#15HELLO" ++ [newline]) 9 = Some st
    /\ response st !! 8%nat = Some newline.
Proof.
  eexists. split; [reflexivity|].
  destruct (strip_changes_one_cell (String (ascii_of_nat 9) EmptyString)
              (list_ascii_of_string "#15HELLO" ++ [newline]) 9 _ eq_refl)
    as (_ & _ & H).
  apply (H 8%nat); [reflexivity|]. vm_compute. discriminate.
Defined.

Lemma overwritten_same (n : nat) (payload : list ascii) :
  Tmc.overwritten n payload = payload
  <-> (List.length payload <= n)%nat
      \/ payload !! (List.length payload - (n + 1))%nat = Some nul.
Proof.
  unfold Tmc.overwritten.
  destruct (Nat.leb_spec (n + 1) (List.length payload)) as [Hle|Hgt].
  - split.
    + intros H. right.
      apply (f_equal (fun l => l !! (List.length payload - (n + 1))%nat)) in H.
      rewrite list_lookup_insert_eq in H by lia. congruence.
    + intros [H|H]; [lia|]. apply list_insert_id. exact H.
  - split; [intros _; left; lia | reflexivity].
Qed.

(** X18.  When no digit follows [c] in memory, a valid frame decodes to
    exactly its payload if and only if the payload has at most [n] bytes
    or its byte at [n + 1] from the end is NUL already.  These are the
    frames on which the overwrite of line 70 does no harm. *)
Theorem frame_round_trip (behind : string) (n : nat) (payload pad : list ascii)
    (term : ascii) :
  Tmc.valid n payload ->
  no_digit_follows behind ->
  decode behind (Tmc.frame n payload term ++ pad)
         (Z.of_nat (List.length (Tmc.frame n payload term)))
    = Some (Z.of_nat n + 2, Z.of_nat (List.length payload), payload)
  <-> (List.length payload <= n)%nat
      \/ payload !! (List.length payload - (n + 1))%nat = Some nul.
Proof.
  intros [[_ Hn] _] Hbehind.
  assert (Htotal : Z.of_nat (List.length (Tmc.frame n payload term))
                   = Z.of_nat (n + 2 + List.length payload + 1)).
  { unfold Tmc.frame. simpl. rewrite !length_app, decimal_length. simpl. lia. }
  rewrite Htotal. unfold Tmc.frame. simpl. rewrite <- !app_assoc.
  rewrite (decode_framed behind n (Tmc.decimal n (List.length payload))
             payload pad term Hn) by (auto using decimal_length).
  rewrite <- overwritten_same. split.
  - intros [= H]. exact H.
  - intros ->. reflexivity.
Qed.

(** The frame ["#202OK\n"], with the byte 7 of its length behind [c]. *)
Lemma frame_round_trip_witness :
  decode (String (ascii_of_nat 7) EmptyString)
         (Tmc.frame 2 ["O"; "K"]%char newline ++ [])
         (Z.of_nat (List.length (Tmc.frame 2 ["O"; "K"]%char newline)))
    = Some (4, 2, ["O"; "K"]%char).
Proof.
  apply (frame_round_trip (String (ascii_of_nat 7) EmptyString) 2 ["O"; "K"]%char
           [] newline).
  - split; simpl; lia.
  - reflexivity.
  - left. simpl. lia.
Defined.

(** X19.  When the byte at index 1 is no digit, no white space and no
    sign, [atoi] returns 0 whatever follows [c] in memory: the header is
    taken as two bytes, and a defined decode step returns the offset 2 and
    the length [length - 3]. *)
Theorem decode_without_digit (behind : string) (r : list ascii) (len p l : Z)
    (bytes : list ascii) (c : ascii) :
  r !! 1%nat = Some c ->
  starts_number c = false ->
  decode behind r len = Some (p, l, bytes) ->
  p = 2 /\ l = len - 3.
Proof.
  intros Hc Hd H. apply decode_inv in H as (c' & Hc' & -> & _ & -> & _).
  rewrite Hc in Hc'. injection Hc' as <-.
  rewrite (atoi_not_a_number c behind Hd). lia.
Qed.

Lemma decode_without_digit_witness : 2 = 2 /\ 2 = 5 - 3.
Proof.
  apply (decode_without_digit (String (ascii_of_nat 5) EmptyString)
           ["H"; "E"; "L"; nul; "O"]%char 5 2 2 ["L"%char; nul] "E");
    reflexivity.
Defined.

(** X20.  [main] called with any number of arguments other than two
    prints the usage line and ends with the failure status; it writes no
    file, whatever the transport would have delivered. *)
Theorem main_usage (w : world) (argv : list string) :
  List.length argv <> 3%nat ->
  main w argv
    = Some {| status := EXIT_FAILURE;
              stdout := "Usage: rigol_1000z_screenshot <ip> <filename>"
                        +:+ String newline EmptyString;
              file := [] |}.
Proof.
  intros H. destruct argv as [|a0 [|a1 [|a2 [|a3 argv]]]]; try reflexivity.
  simpl in H. congruence.
Qed.

Lemma main_usage_witness :
  main {| connect_result := 0; send_result := 0; receive_result := 0;
          received := list_ascii_of_string "#15HELLO" ++ [newline];
          length_before := 0; length_written := Some 9;
          after_c := String (ascii_of_nat 9) EmptyString;
          fopen_succeeds := fun _ => true |}
       ["rigol_1000z_screenshot"; "192.0.2.5"]
    = Some {| status := EXIT_FAILURE;
              stdout := "Usage: rigol_1000z_screenshot <ip> <filename>"
                        +:+ String newline EmptyString;
              file := [] |}.
Proof.
  apply main_usage. simpl. lia.
Defined.

End DecodeMore.

